(** * Prompt lifecycle manager: a shallow embedding and its properties

    The development follows the Python module that keeps the prompt
    library (one JSON document on disk, keyed by a digest of the domain
    tags).  Python values are embedded as follows.

    - [str] is a [string]: the UTF-8 bytes of the text.  The [str] methods
      below are exact on ASCII text, which is what domain tags are.
    - [int] is [Z] (unbounded).
    - [float] is a type with the operations the module uses (class
      [PyFloat]); its instance is the kernel's binary64 [float], whose
      finite values are rationals ([value]).
    - [dict] used as a map is a [gmap]; dicts with a fixed set of keys are
      records; [None]-able values are [option]s.
    - [datetime.now().isoformat()] is a reading of a logical clock kept in
      the state of the world; each reading advances the clock.
    - the file at [LIBRARY_PATH] is the [disk] component of the world.
    - a raised exception is the [Raise] result of a state-and-error monad. *)

From Stdlib Require Import ZArith QArith Qfield Qabs Qpower Lqa Floats Ascii String.
From stdpp Require Import base option list sorting strings gmap.

Local Open Scope Z_scope.

(** ** hashlib.md5 (RFC 1321) *)

Module MD5.

Definition add32 (x y : Z) : Z := (x + y) mod 2 ^ 32.
Definition not32 (x : Z) : Z := Z.lxor x 0xffffffff.
Definition rotl32 (x s : Z) : Z :=
  Z.lor (Z.shiftl x s mod 2 ^ 32) (Z.shiftr x (32 - s)).

(** [K[i] = floor(2^32 * abs(sin(i + 1)))] *)
Definition K : list Z :=
  [ 0xd76aa478; 0xe8c7b756; 0x242070db; 0xc1bdceee;
    0xf57c0faf; 0x4787c62a; 0xa8304613; 0xfd469501;
    0x698098d8; 0x8b44f7af; 0xffff5bb1; 0x895cd7be;
    0x6b901122; 0xfd987193; 0xa679438e; 0x49b40821;
    0xf61e2562; 0xc040b340; 0x265e5a51; 0xe9b6c7aa;
    0xd62f105d; 0x02441453; 0xd8a1e681; 0xe7d3fbc8;
    0x21e1cde6; 0xc33707d6; 0xf4d50d87; 0x455a14ed;
    0xa9e3e905; 0xfcefa3f8; 0x676f02d9; 0x8d2a4c8a;
    0xfffa3942; 0x8771f681; 0x6d9d6122; 0xfde5380c;
    0xa4beea44; 0x4bdecfa9; 0xf6bb4b60; 0xbebfbc70;
    0x289b7ec6; 0xeaa127fa; 0xd4ef3085; 0x04881d05;
    0xd9d4d039; 0xe6db99e5; 0x1fa27cf8; 0xc4ac5665;
    0xf4292244; 0x432aff97; 0xab9423a7; 0xfc93a039;
    0x655b59c3; 0x8f0ccc92; 0xffeff47d; 0x85845dd1;
    0x6fa87e4f; 0xfe2ce6e0; 0xa3014314; 0x4e0811a1;
    0xf7537e82; 0xbd3af235; 0x2ad7d2bb; 0xeb86d391 ].

(** per-round left-rotation amounts *)
Definition shifts : list Z :=
  [ 7; 12; 17; 22; 7; 12; 17; 22; 7; 12; 17; 22; 7; 12; 17; 22;
    5;  9; 14; 20; 5;  9; 14; 20; 5;  9; 14; 20; 5;  9; 14; 20;
    4; 11; 16; 23; 4; 11; 16; 23; 4; 11; 16; 23; 4; 11; 16; 23;
    6; 10; 15; 21; 6; 10; 15; 21; 6; 10; 15; 21; 6; 10; 15; 21 ].

Record digest_state := DS { dA : Z; dB : Z; dC : Z; dD : Z }.

Definition init_state : digest_state :=
  DS 0x67452301 0xefcdab89 0x98badcfe 0x10325476.

(** the mixing function and the message-word index of round [i] *)
Definition mix (i : nat) (b c d : Z) : Z * nat :=
  if (i <? 16)%nat then
    (Z.lor (Z.land b c) (Z.land (not32 b) d), i)
  else if (i <? 32)%nat then
    (Z.lor (Z.land d b) (Z.land (not32 d) c), ((5 * i + 1) mod 16)%nat)
  else if (i <? 48)%nat then
    (Z.lxor (Z.lxor b c) d, ((3 * i + 5) mod 16)%nat)
  else
    (Z.lxor c (Z.lor b (not32 d)), ((7 * i) mod 16)%nat).

Definition step (M : list Z) (st : digest_state) (i : nat) : digest_state :=
  let '(f, g) := mix i (dB st) (dC st) (dD st) in
  let f' := add32 (add32 (add32 f (dA st)) (nth i K 0)) (nth g M 0) in
  DS (dD st) (add32 (dB st) (rotl32 f' (nth i shifts 0))) (dB st) (dC st).

Definition process_block (st : digest_state) (M : list Z) : digest_state :=
  let st' := foldl (step M) st (seq 0 64) in
  DS (add32 (dA st) (dA st')) (add32 (dB st) (dB st'))
     (add32 (dC st) (dC st')) (add32 (dD st) (dD st')).

(** [n] as [k] little-endian bytes *)
Fixpoint le_bytes (k : nat) (n : Z) : list Z :=
  match k with
  | O => []
  | S k' => (n mod 256) :: le_bytes k' (n / 256)
  end.

Fixpoint le_word (bs : list Z) : Z :=
  match bs with
  | [] => 0
  | b :: bs' => b + 256 * le_word bs'
  end.

(** the message, one [0x80] byte, zeros up to 56 modulo 64, and the bit
    length on 8 bytes *)
Definition pad (msg : list Z) : list Z :=
  let len := Z.of_nat (length msg) in
  let zeros := Z.to_nat ((55 - len) mod 64) in
  msg ++ [0x80] ++ replicate zeros 0 ++ le_bytes 8 ((8 * len) mod 2 ^ 64).

(** cut into groups of [n]; [fuel] bounds the number of groups *)
Fixpoint chunks (fuel n : nat) (l : list Z) : list (list Z) :=
  match fuel with
  | O => []
  | S fuel' =>
      match l with
      | [] => []
      | _ => take n l :: chunks fuel' n (drop n l)
      end
  end.

Definition blocks (bytes : list Z) : list (list Z) :=
  (fun blk => le_word <$> chunks 16 4 blk) <$> chunks (length bytes) 64 bytes.

Definition digest (msg : list Z) : list Z :=
  let st := foldl process_block init_state (blocks (pad msg)) in
  le_bytes 4 (dA st) ++ le_bytes 4 (dB st)
    ++ le_bytes 4 (dC st) ++ le_bytes 4 (dD st).

Definition hex_digit (n : Z) : ascii :=
  nth (Z.to_nat n)
      (list_ascii_of_string "0123456789abcdef") "0"%char.

Fixpoint hex (bs : list Z) : string :=
  match bs with
  | [] => ""
  | b :: bs' => String (hex_digit (b / 16)) (String (hex_digit (b mod 16)) (hex bs'))
  end.

(** [str.encode()]: the bytes of the text *)
Definition encode (s : string) : list Z :=
  (fun c => Z.of_N (N_of_ascii c)) <$> list_ascii_of_string s.

(** [hashlib.md5(b).hexdigest()] *)
Definition hexdigest (msg : list Z) : string := hex (digest msg).

End MD5.

(** ** Python built-ins used by the module *)

Module Py.

(** [str.isspace] on one character (ASCII range) *)
Definition isspace (c : ascii) : bool :=
  let n := N_of_ascii c in
  ((9 <=? n) && (n <=? 13) || (28 <=? n) && (n <=? 32))%N.

Fixpoint lstrip (s : string) : string :=
  match s with
  | EmptyString => EmptyString
  | String c s' => if isspace c then lstrip s' else s
  end.

Definition rstrip (s : string) : string :=
  String.rev (lstrip (String.rev s)).

(** [s.strip()] *)
Definition strip (s : string) : string := rstrip (lstrip s).

Definition lower_char (c : ascii) : ascii :=
  let n := N_of_ascii c in
  if ((65 <=? n) && (n <=? 90))%N then ascii_of_N (n + 32) else c.

(** [s.lower()] *)
Fixpoint lower (s : string) : string :=
  match s with
  | EmptyString => EmptyString
  | String c s' => String (lower_char c) (lower s')
  end.

(** [s.replace(old, new)] for one-character [old] and [new] *)
Fixpoint replace (old new : ascii) (s : string) : string :=
  match s with
  | EmptyString => EmptyString
  | String c s' =>
      String (if Ascii.eqb c old then new else c) (replace old new s')
  end.

(** [sep.join(l)] *)
Fixpoint join (sep : string) (l : list string) : string :=
  match l with
  | [] => ""
  | [x] => x
  | x :: l' => x +:+ sep +:+ join sep l'
  end.

(** [sorted(l)] on strings: ascending in the code-point order *)
Definition sorted (l : list string) : list string :=
  merge_sort String.le l.

(** [l[-n:]] for positive [n] *)
Definition last_n {A} (n : nat) (l : list A) : list A :=
  drop (length l - n) l.

(** [s[:n]] *)
Definition prefix (n : nat) (s : string) : string := substring 0 n s.

(** truth value of a [str]: non-empty *)
Definition truthy (s : string) : bool := negb (String.eqb s "").

End Py.

(** ** Key derivation *)

Definition normalize (d : string) : string :=
  Py.replace " " "_" (Py.lower (Py.strip d)).

Definition _domain_key (domains : list string) : string :=
  let normalized := Py.sorted (normalize <$> domains) in
  Py.prefix 12 (MD5.hexdigest (MD5.encode (Py.join "|" normalized))).

(** ** The normalisation as the specification words it

    "Normalize each tag: trim whitespace, lowercase, replace internal
    whitespace with a single underscore."  Written on lists of characters,
    apart from the functions of [Py], to be compared with [normalize]. *)

Module Spec.








End Spec.




(** ** Python floats *)

(** The arithmetic [log_run] performs on floats, and the two float literals
    of the module.  An [int] operand of a float operation is converted
    first ([of_int]).  The one law, that [x > y] and [x <= y] exclude each
    other, holds in binary64 (where both are false on a NaN) as in exact
    arithmetic. *)
Class PyFloat (F : Type) := {
  of_int : Z → F;
  fadd : F → F → F;
  fmul : F → F → F;
  fdiv : F → F → F;
  fgt : F → F → bool;
  fle : F → F → bool;
  lit_0_0 : F;
  lit_0_6 : F;
  fgt_fle : ∀ x y, fgt x y = true → fle x y = true → False;
}.

(** the nearest binary64 value, ties to even *)
Definition float_of_int (n : Z) : float :=
  SF2Prim (binary_normalize prec emax n 0 false).

(** Python's [float]: IEEE 754 binary64.  [0x1.3333333333333p-1] is the
    binary64 value of the literal [0.6]. *)
#[global, refine] Instance binary64 : PyFloat float := {|
  of_int := float_of_int;
  fadd := PrimFloat.add;
  fmul := PrimFloat.mul;
  fdiv := PrimFloat.div;
  fgt x y := PrimFloat.ltb y x;
  fle := PrimFloat.leb;
  lit_0_0 := 0%float;
  lit_0_6 := 0x1.3333333333333p-1%float;
|}.
Proof.
  abstract (
    intros x y; rewrite ltb_spec, leb_spec; unfold SFltb, SFleb;
    assert (SFcompare (Prim2SF y) (Prim2SF x)
            = option_map CompOpp (SFcompare (Prim2SF x) (Prim2SF y))) as ->;
    [ destruct (Prim2SF x) as [sx|sx| |sx mx ex],
               (Prim2SF y) as [sy|sy| |sy my ey]; simpl;
        try (by repeat match goal with b : bool |- _ => destruct b end);
        destruct sx, sy; simpl; try done;
        rewrite (Z.compare_antisym ey ex); destruct (ey ?= ex); simpl;
        try done; by rewrite (Pos.compare_cont_antisym mx my Eq)
    | destruct (SFcompare (Prim2SF x) (Prim2SF y)) as [[]|]; simpl;
        congruence ]).
Defined.

(** arithmetic mean of a non-empty list of rationals *)
Definition Qsum (l : list Q) : Q := foldr Qplus 0%Q l.
Definition mean (l : list Q) : Q := (Qsum l / inject_Z (Z.of_nat (length l)))%Q.

(** ** Binary64 numbers as rationals *)

Definition pow2 (e : Z) : Q := (2 ^ e)%Q.

(** the exact rational value of a finite number *)
Definition SF2Q (x : spec_float) : option Q :=
  match x with
  | S754_zero _ => Some 0%Q
  | S754_finite s m e =>
      Some (if s then - (inject_Z (Z.pos m) * pow2 e)
            else inject_Z (Z.pos m) * pow2 e)%Q
  | _ => None
  end.

(** the value of a binary64 number, if it is finite *)
Definition value (x : float) : option Q := SF2Q (Prim2SF x).

(** the value of a finite number, and 0 for an infinity and for NaN *)
Definition to_Q (x : float) : Q := default 0%Q (value x).

(** a finite number from 0 to 1, the range of a confidence *)
Definition in_unit (x : float) : bool :=
  match value x with
  | Some q => Qle_bool 0 q && Qle_bool q 1
  | None => false
  end.

(** unit roundoff and half the smallest positive number of binary64 *)
Definition u64 : Q := pow2 (-53).
Definition eta64 : Q := pow2 (-1075).

(** the tolerance gained per run: eight units of roundoff *)
Definition tol64 : Q := pow2 (-50).

(** where a number sits between two neighbouring integers *)
Definition loc_ok (l : location) (f : Q) : Prop :=
  match l with
  | loc_Exact => (f == 0)%Q
  | loc_Inexact Lt => (0 < f ∧ f < 1 # 2)%Q
  | loc_Inexact Eq => (f == 1 # 2)%Q
  | loc_Inexact Gt => ((1 # 2) < f ∧ f < 1)%Q
  end.

(** the record stands for the number [y]: its integer part is [shr_m], and
    the two bits locate the rest *)
Definition represents (mrs : shr_record) (y : Q) : Prop :=
  0 ≤ shr_m mrs
  ∧ loc_ok (loc_of_shr_record mrs) (y - inject_Z (shr_m mrs))%Q.

(** what [binary_round_aux] returns for a mantissa and an exponent *)
Definition packed (m e : Z) : spec_float :=
  match m with
  | Z0 => S754_zero false
  | Z.pos p =>
      if e <=? emax - prec then S754_finite false p e else S754_infinity false
  | Z.neg _ => S754_nan
  end.

(** [r] is a finite, non-negative number within a relative error of [u64]
    plus an absolute error of [eta64] of [x] *)
Definition rounds_to (r : spec_float) (x : Q) : Prop :=
  ∃ q, SF2Q r = Some q
       ∧ (0 <= q)%Q
       ∧ (q - x <= u64 * x + eta64)%Q
       ∧ (x - q <= u64 * x + eta64)%Q.

(** after [k] runs whose confidences sum to [S], the average [a] is
    within [k * tol64] of [S / k] *)
Definition near_mean (k : Z) (a S : Q) : Prop :=
  (0 <= a ∧ a <= 2
   ∧ 0 <= S ∧ S <= inject_Z k
   ∧ inject_Z k * a - S <= tol64 * (inject_Z k * inject_Z k)
   ∧ S - inject_Z k * a <= tol64 * (inject_Z k * inject_Z k))%Q.

(** ** Results and exceptions *)

(** The two [ValueError]s are told apart by their message; the division in
    [log_run] raises [ZeroDivisionError] on a zero divisor. *)
Inductive error :=
| NotFound (domains : list string)
| VersionNotFound (to_version : Z)
| ZeroDivisionError.

Inductive result (A : Type) :=
| Ok (a : A)
| Raise (e : error).
Arguments Ok {A} a.
Arguments Raise {A} e.

(** ** Data model *)

Section Lifecycle.
Context {F : Type} `{!PyFloat F}.

Definition timestamp := nat.

Inductive Status := draft | evolving | curated.

#[global] Instance Status_eq_dec : EqDecision Status.
Proof. solve_decision. Defined.

(** one archived version in [history] *)
Record Snapshot := {
  h_version : Z;
  h_system_prompt : string;
  h_status : Status;
  h_saved_at : timestamp;
}.

Record Performance := {
  runs : Z;
  avg_confidence : F;
  regime_changes : Z;
  conflicts_detected : Z;
  last_run : option timestamp;
  last_regime : option string;
}.

Record Entry := {
  key : string;
  status : Status;
  system_prompt : string;
  version : Z;
  domains : list string;
  user_intent : string;
  generated_by : string;
  created_at : timestamp;
  updated_at : timestamp;
  curated_at : option timestamp;
  curated_by : option string;
  performance : Performance;
  human_notes : string;
  history : list Snapshot;
}.

(** [entry[field] = v]: in-place updates of one field *)
Definition set_status (v : Status) (e : Entry) : Entry :=
  Build_Entry (key e) v (system_prompt e) (version e) (domains e)
    (user_intent e) (generated_by e) (created_at e) (updated_at e)
    (curated_at e) (curated_by e) (performance e) (human_notes e) (history e).
Definition set_system_prompt (v : string) (e : Entry) : Entry :=
  Build_Entry (key e) (status e) v (version e) (domains e)
    (user_intent e) (generated_by e) (created_at e) (updated_at e)
    (curated_at e) (curated_by e) (performance e) (human_notes e) (history e).
Definition set_version (v : Z) (e : Entry) : Entry :=
  Build_Entry (key e) (status e) (system_prompt e) v (domains e)
    (user_intent e) (generated_by e) (created_at e) (updated_at e)
    (curated_at e) (curated_by e) (performance e) (human_notes e) (history e).
Definition set_updated_at (v : timestamp) (e : Entry) : Entry :=
  Build_Entry (key e) (status e) (system_prompt e) (version e) (domains e)
    (user_intent e) (generated_by e) (created_at e) v
    (curated_at e) (curated_by e) (performance e) (human_notes e) (history e).
Definition set_curated_at (v : option timestamp) (e : Entry) : Entry :=
  Build_Entry (key e) (status e) (system_prompt e) (version e) (domains e)
    (user_intent e) (generated_by e) (created_at e) (updated_at e)
    v (curated_by e) (performance e) (human_notes e) (history e).
Definition set_curated_by (v : option string) (e : Entry) : Entry :=
  Build_Entry (key e) (status e) (system_prompt e) (version e) (domains e)
    (user_intent e) (generated_by e) (created_at e) (updated_at e)
    (curated_at e) v (performance e) (human_notes e) (history e).
Definition set_performance (v : Performance) (e : Entry) : Entry :=
  Build_Entry (key e) (status e) (system_prompt e) (version e) (domains e)
    (user_intent e) (generated_by e) (created_at e) (updated_at e)
    (curated_at e) (curated_by e) v (human_notes e) (history e).
Definition set_human_notes (v : string) (e : Entry) : Entry :=
  Build_Entry (key e) (status e) (system_prompt e) (version e) (domains e)
    (user_intent e) (generated_by e) (created_at e) (updated_at e)
    (curated_at e) (curated_by e) (performance e) v (history e).
Definition set_history (v : list Snapshot) (e : Entry) : Entry :=
  Build_Entry (key e) (status e) (system_prompt e) (version e) (domains e)
    (user_intent e) (generated_by e) (created_at e) (updated_at e)
    (curated_at e) (curated_by e) (performance e) (human_notes e) v.

(** the document kept in the file *)
Record Library := {
  prompts : gmap string Entry;
  metadata_created : timestamp;
}.

(** [lib["prompts"][k] = e] *)
Definition set_prompt (lib : Library) (k : string) (e : Entry) : Library :=
  {| prompts := <[k := e]> (prompts lib);
     metadata_created := metadata_created lib |}.

(** [del lib["prompts"][k]] *)
Definition del_prompt (lib : Library) (k : string) : Library :=
  {| prompts := delete k (prompts lib);
     metadata_created := metadata_created lib |}.

(** ** The world: the file and the clock *)

Record world := {
  disk : option Library;
  clock : nat;
}.

Definition M (A : Type) : Type := world → result A * world.

#[global] Instance M_ret : MRet M := λ A a w, (Ok a, w).

#[global] Instance M_bind : MBind M := λ A B f m w,
  match m w with
  | (Ok a, w') => f a w'
  | (Raise e, w') => (Raise e, w')
  end.

Definition raise {A} (e : error) : M A := λ w, (Raise e, w).

(** [datetime.now().isoformat()] *)
Definition datetime_now : M timestamp :=
  λ w, (Ok (clock w), {| disk := disk w; clock := S (clock w) |}).

Definition read_file : M (option Library) := λ w, (Ok (disk w), w).

Definition write_file (lib : Library) : M unit :=
  λ w, (Ok tt, {| disk := Some lib; clock := clock w |}).

Definition _load_library : M Library :=
  f ← read_file;
  match f with
  | Some lib => mret lib
  | None =>
      created ← datetime_now;
      mret {| prompts := ∅; metadata_created := created |}
  end.

Definition _save_library (lib : Library) : M unit := write_file lib.

(** ** Public API *)

Definition get_prompt (domains : list string) : M (option Entry) :=
  lib ← _load_library;
  let key := _domain_key domains in
  mret (prompts lib !! key).

Definition get_best_prompt (domains : list string) : M (option string) :=
  entry ← get_prompt domains;
  match entry with
  | None => mret None
  | Some entry =>
      match status entry with
      | curated => mret (Some (system_prompt entry))
      | evolving => mret (Some (system_prompt entry))
      | draft => mret (Some (system_prompt entry))
      end
  end.

(** the snapshot appended to [history] before a mutation *)
Definition archive (e : Entry) (saved_at : timestamp) : Snapshot :=
  {| h_version := version e;
     h_system_prompt := system_prompt e;
     h_status := status e;
     h_saved_at := saved_at |}.

Definition fresh_performance : Performance :=
  {| runs := 0;
     avg_confidence := lit_0_0;
     regime_changes := 0;
     conflicts_detected := 0;
     last_run := None;
     last_regime := None |}.

Definition save_draft (domains : list string)
    (system_prompt user_intent generated_by : string) : M Entry :=
  lib ← _load_library;
  let key := _domain_key domains in
  let existing := prompts lib !! key in
  let overwrite : M Entry :=
    let version :=
      match existing with Some ex => version ex + 1 | None => 1 end in
    let history :=
      match existing with Some ex => history ex | None => [] end in
    history ←
      match existing with
      | Some ex =>
          saved_at ← datetime_now;
          mret (Py.last_n 10 (history ++ [archive ex saved_at]))
      | None => mret history
      end;
    created_at ←
      match existing with
      | Some ex => mret (created_at ex)
      | None => datetime_now
      end;
    updated_at ← datetime_now;
    let entry :=
      {| key := key;
         status := draft;
         system_prompt := system_prompt;
         version := version;
         domains := Py.sorted domains;
         user_intent := user_intent;
         generated_by := generated_by;
         created_at := created_at;
         updated_at := updated_at;
         curated_at := None;
         curated_by := None;
         performance :=
           match existing with
           | Some ex => performance ex
           | None => fresh_performance
           end;
         human_notes :=
           match existing with Some ex => human_notes ex | None => "" end;
         history := history |} in
    _save_library (set_prompt lib key entry);;
    mret entry in
  match existing with
  | Some ex => if decide (status ex = curated) then mret ex else overwrite
  | None => overwrite
  end.

Definition curate_prompt (domains : list string)
    (edited_prompt : option string) (curator notes : string) : M Entry :=
  lib ← _load_library;
  let key := _domain_key domains in
  match prompts lib !! key with
  | None => raise (NotFound domains)
  | Some entry =>
      saved_at ← datetime_now;
      let entry :=
        set_history
          (Py.last_n 10 (history entry ++ [archive entry saved_at])) entry in
      let entry :=
        match edited_prompt with
        | Some edited =>
            if Py.truthy edited then set_system_prompt edited entry else entry
        | None => entry
        end in
      let entry := set_status curated entry in
      let entry := set_version (version entry + 1) entry in
      now ← datetime_now;
      let entry := set_curated_at (Some now) entry in
      let entry := set_curated_by (Some curator) entry in
      now ← datetime_now;
      let entry := set_updated_at now entry in
      let entry :=
        set_human_notes
          (if Py.truthy notes then notes else human_notes entry) entry in
      _save_library (set_prompt lib key entry);;
      mret entry
  end.

(** the regime counter moves when a previous, non-empty regime differs *)
Definition regime_changed (last : option string) (regime : string) : bool :=
  match last with
  | Some r => Py.truthy r && negb (String.eqb r regime)
  | None => false
  end.

Definition log_run (domains : list string) (confidence : F)
    (regime : string) (conflicts : list string) : M unit :=
  lib ← _load_library;
  let key := _domain_key domains in
  match prompts lib !! key with
  | None => mret tt
  | Some entry =>
      let perf := performance entry in
      let n := runs perf + 1 in
      if decide (n = 0) then raise ZeroDivisionError else
      let avg :=
        fdiv (fadd (fmul (avg_confidence perf) (of_int (n - 1))) confidence)
             (of_int n) in
      let changes :=
        if regime_changed (last_regime perf) regime
        then regime_changes perf + 1 else regime_changes perf in
      let detected :=
        match conflicts with
        | [] => conflicts_detected perf
        | _ :: _ => conflicts_detected perf + 1
        end in
      now ← datetime_now;
      let perf :=
        {| runs := n;
           avg_confidence := avg;
           regime_changes := changes;
           conflicts_detected := detected;
           last_run := Some now;
           last_regime := Some regime |} in
      let entry :=
        if bool_decide (status entry = draft) && (20 <=? runs perf)
             && fgt (avg_confidence perf) lit_0_6
        then set_status evolving entry else entry in
      let entry := set_performance perf entry in
      _save_library (set_prompt lib key entry)
  end.

(** the first snapshot of [history] with the wanted version *)
Fixpoint find_version (to_version : Z) (history : list Snapshot)
    : option Snapshot :=
  match history with
  | [] => None
  | h :: rest =>
      if decide (h_version h = to_version) then Some h
      else find_version to_version rest
  end.

Definition rollback (domains : list string) (to_version : Z) : M Entry :=
  lib ← _load_library;
  let key := _domain_key domains in
  match prompts lib !! key with
  | None => raise (NotFound domains)
  | Some entry =>
      match find_version to_version (history entry) with
      | None => raise (VersionNotFound to_version)
      | Some target =>
          saved_at ← datetime_now;
          let entry :=
            set_history (history entry ++ [archive entry saved_at]) entry in
          let entry := set_system_prompt (h_system_prompt target) entry in
          let entry := set_version (version entry + 1) entry in
          let entry := set_status (h_status target) entry in
          now ← datetime_now;
          let entry := set_updated_at now entry in
          _save_library (set_prompt lib key entry);;
          mret entry
      end
  end.

Definition delete_prompt (domains : list string) : M bool :=
  lib ← _load_library;
  let key := _domain_key domains in
  match prompts lib !! key with
  | Some _ => _save_library (del_prompt lib key);; mret true
  | None => mret false
  end.

(** ** Sequences of operations *)

Inductive op :=
| SaveDraft (domains : list string)
    (system_prompt user_intent generated_by : string)
| Curate (domains : list string)
    (edited_prompt : option string) (curator notes : string)
| LogRun (domains : list string)
    (confidence : F) (regime : string) (conflicts : list string)
| Rollback (domains : list string) (to_version : Z)
| Delete (domains : list string).

(** the world after one call, whatever it returned or raised *)
Definition exec (o : op) (w : world) : world :=
  match o with
  | SaveDraft d sp ui gb => (save_draft d sp ui gb w).2
  | Curate d ed cu no => (curate_prompt d ed cu no w).2
  | LogRun d c r cs => (log_run d c r cs w).2
  | Rollback d v => (rollback d v w).2
  | Delete d => (delete_prompt d w).2
  end.

Definition exec_all (os : list op) (w : world) : world :=
  foldl (λ w o, exec o w) w os.

(** the entry stored under key [k], if any *)
Definition entry_at (k : string) (w : world) : option Entry :=
  lib ← disk w; prompts lib !! k.

(** the entry stored under the key of [domains], if any *)
Definition stored (domains : list string) (w : world) : option Entry :=
  entry_at (_domain_key domains) w.

(** the curation marks of the entry stored under key [k] *)
Definition curation_marks (k : string) (w : world)
    : option (option timestamp * option string) :=
  (λ e, (curated_at e, curated_by e)) <$> entry_at k w.

(** Versions grow strictly along the history and stay below the current
    version. *)
Definition versions_ordered (e : Entry) : Prop :=
  StronglySorted Z.lt ((h_version <$> history e) ++ [version e]).

Definition world_ok (w : world) : Prop :=
  ∀ k e, entry_at k w = Some e → versions_ordered e.

(** worlds the module can produce, starting without a file *)
Inductive reachable : world → Prop :=
| reachable_init c : reachable {| disk := None; clock := c |}
| reachable_step o w : reachable w → reachable (exec o w).

(** one logged run: confidence, regime and conflicts *)
Definition run_record : Type := F * string * list string.

Definition confidences (rs : list run_record) : list F := (λ r, r.1.1) <$> rs.

(** sequential [log_run] calls on the same domains *)
Definition log_runs (domains : list string) (rs : list run_record) : list op :=
  (λ r, LogRun domains r.1.1 r.1.2 r.2) <$> rs.

(** ** Writing the file, call by call

    [_save_library] again, this time as the calls it makes on the file
    system, so that a process stopped between two calls can be observed.
    The text that [json.dump] writes is kept as the sequence of its JSON
    tokens (separators and indentation left out); the entries of [prompts]
    come in the order of the map. *)

Inductive token :=
| ObjOpen
| ObjClose
| ArrOpen
| ArrClose
| Key (s : string)
| Str (s : string)
| Int (z : Z)
| Float (x : F)
| Time (t : timestamp)
| Null.

Definition dump_status (s : Status) : token :=
  Str match s with
      | draft => "draft"
      | evolving => "evolving"
      | curated => "curated"
      end.

Definition dump_snapshot (h : Snapshot) : list token :=
  [ ObjOpen;
    Key "version"; Int (h_version h);
    Key "system_prompt"; Str (h_system_prompt h);
    Key "status"; dump_status (h_status h);
    Key "saved_at"; Time (h_saved_at h);
    ObjClose ].

(** the [last_regime] key exists once a run has been logged *)
Definition dump_performance (p : Performance) : list token :=
  [ ObjOpen;
    Key "runs"; Int (runs p);
    Key "avg_confidence"; Float (avg_confidence p);
    Key "regime_changes"; Int (regime_changes p);
    Key "conflicts_detected"; Int (conflicts_detected p);
    Key "last_run"; from_option Time Null (last_run p) ]
  ++ match last_regime p with
     | Some r => [Key "last_regime"; Str r]
     | None => []
     end
  ++ [ ObjClose ].

Definition dump_entry (e : Entry) : list token :=
  [ ObjOpen;
    Key "key"; Str (key e);
    Key "status"; dump_status (status e);
    Key "system_prompt"; Str (system_prompt e);
    Key "version"; Int (version e);
    Key "domains"; ArrOpen ] ++ (Str <$> domains e) ++ [ ArrClose;
    Key "user_intent"; Str (user_intent e);
    Key "generated_by"; Str (generated_by e);
    Key "created_at"; Time (created_at e);
    Key "updated_at"; Time (updated_at e);
    Key "curated_at"; from_option Time Null (curated_at e);
    Key "curated_by"; from_option Str Null (curated_by e);
    Key "performance" ] ++ dump_performance (performance e) ++ [
    Key "human_notes"; Str (human_notes e);
    Key "history"; ArrOpen ]
    ++ concat (dump_snapshot <$> history e) ++ [ ArrClose; ObjClose ].

(** [json.dump(lib, f, indent=2, default=str)], as the pieces written *)
Definition json_dump (lib : Library) : list token :=
  [ ObjOpen; Key "prompts"; ObjOpen ]
  ++ concat ((λ kv, Key kv.1 :: dump_entry kv.2)
               <$> map_to_list (prompts lib))
  ++ [ ObjClose;
       Key "metadata"; ObjOpen;
       Key "created"; Time (metadata_created lib); ObjClose;
       ObjClose ].

Definition LIBRARY_PATH : string := "/app/data/prompt_library.json".
Definition LIBRARY_DIR : string := "/app/data".

(** the files, each with the tokens it holds *)
Abbreviation files := (gmap string (list token)).

Inductive call :=
| Mkdir (dir : string)
| OpenW (path : string)
| Write (path : string) (t : token)
| Close (path : string).

(** [open(path, "w")] creates the file or cuts it to length zero; a
    write appends at the end of what the file holds. *)
Definition perform (fs : files) (c : call) : files :=
  match c with
  | Mkdir _ => fs
  | OpenW path => <[path := []]> fs
  | Write path t => alter (λ content, content ++ [t]) path fs
  | Close _ => fs
  end.

Definition _save_library_calls (lib : Library) : list call :=
  [ Mkdir LIBRARY_DIR; OpenW LIBRARY_PATH ]
  ++ (Write LIBRARY_PATH <$> json_dump lib)
  ++ [ Close LIBRARY_PATH ].

Definition completed (lib : Library) (fs : files) : files :=
  foldl perform fs (_save_library_calls lib).

(** the files when the process stops after the first [n] calls *)
Definition interrupted (n : nat) (lib : Library) (fs : files) : files :=
  foldl perform fs (take n (_save_library_calls lib)).

(** the file is the complete text of [lib] *)
Definition holds (fs : files) (lib : Library) : Prop :=
  fs !! LIBRARY_PATH = Some (json_dump lib).

(** ** A worked scenario *)

Definition tags : list string := ["Housing"; "inflation"].

(** no file yet, clock at its origin *)
Definition boot : world := {| disk := None; clock := 0 |}.

Definition after (os : list op) : world := exec_all os boot.

Definition first_draft : op := SaveDraft tags "v1" "intent" "auto".
Definition second_draft : op := SaveDraft tags "v2" "intent" "auto".
Definition approve : op := Curate tags None "human" "ok".

(** the number of snapshots kept for [domains] *)
Definition history_length (domains : list string) (w : world) : option nat :=
  (λ e, length (history e)) <$> stored domains w.

(** the document in the file of [w] (an empty one without a file) *)
Definition on_disk (w : world) : Library :=
  default {| prompts := ∅; metadata_created := 0%nat |} (disk w).

(** ** Listing, and what the store keeps true *)

(** the string a status is stored as *)
Definition status_name (s : Status) : string :=
  match s with
  | draft => "draft"
  | evolving => "evolving"
  | curated => "curated"
  end.

(** [p["status"] == s] *)
Definition has_status (s : string) (p : Entry) : Prop :=
  status_name (status p) = s.

#[global] Instance has_status_dec (s : string) (p : Entry) :
  Decision (has_status s p).
Proof. unfold has_status. apply _. Defined.

(** the order of [sorted(..., key=updated_at, reverse=True)] *)
Definition newer_first (a b : Entry) : Prop :=
  (updated_at b ≤ updated_at a)%nat.

#[global] Instance newer_first_dec : RelDecision newer_first.
Proof. intros a b. unfold newer_first. apply _. Defined.

(** Entries with the same [updated_at] come out in the order of the map,
    which stands for the order of the file. *)
Definition list_prompts (status : option string) : M (list Entry) :=
  lib ← _load_library;
  let prompts := (map_to_list (prompts lib)).*2 in
  let prompts :=
    match status with
    | Some s => if Py.truthy s then filter (has_status s) prompts else prompts
    | None => prompts
    end in
  mret (merge_sort newer_first prompts).

(** the domain list an operation is called with *)
Definition op_domains (o : op) : list string :=
  match o with
  | SaveDraft d _ _ _ => d
  | Curate d _ _ _ => d
  | LogRun d _ _ _ => d
  | Rollback d _ => d
  | Delete d => d
  end.

(** the counters of [performance] stay within the number of runs *)
Definition counters_ok (p : Performance) : Prop :=
  0 ≤ conflicts_detected p ≤ runs p
  ∧ 0 ≤ regime_changes p ≤ Z.max 0 (runs p - 1)
  ∧ (runs p = 0 → last_regime p = None).

(** the versions kept in [history] are the consecutive ones just below the
    current version *)
Definition history_contiguous (e : Entry) : Prop :=
  h_version <$> history e
  = seqZ (version e - Z.of_nat (length (history e)))
         (Z.of_nat (length (history e))).

(** what holds of the entry stored under key [k] *)
Record entry_ok (k : string) (e : Entry) : Prop := {
  ok_key : key e = k;
  ok_domains : _domain_key (domains e) = k;
  ok_contiguous : history_contiguous e;
  ok_length :
    Z.min (version e - 1) 10 ≤ Z.of_nat (length (history e)) ≤ version e - 1;
  ok_counters : counters_ok (performance e);
  ok_evolving : status e = evolving → 20 ≤ runs (performance e);
  ok_evolved :
    Forall (λ h, h_status h = evolving → 20 ≤ runs (performance e))
           (history e);
}.

Definition store_ok (w : world) : Prop :=
  ∀ k e, entry_at k w = Some e → entry_ok k e.

(** the regimes and the conflict lists of a sequence of runs *)
Definition regimes (rs : list run_record) : list string := (λ r, r.1.2) <$> rs.

(** how many neighbours in the list differ *)
Fixpoint adjacent_changes (l : list string) : Z :=
  match l with
  | a :: (b :: _) as rest =>
      (if String.eqb a b then 0 else 1) + adjacent_changes rest
  | _ => 0
  end.

(** how many runs report a conflict *)
Definition conflict_runs (rs : list run_record) : Z :=
  Z.of_nat (length (filter (λ r, r.2 ≠ []) rs)).


(** the calls the pipeline makes without a human: draft saves and logged
    runs *)
Definition automatic (o : op) : Prop :=
  match o with
  | SaveDraft _ _ _ _ | LogRun _ _ _ _ => True
  | _ => False
  end.
(** ** Proofs *)

Arguments _domain_key : simpl never.
Arguments Py.last_n : simpl never.
Arguments Py.sorted : simpl never.
Arguments json_dump : simpl never.
Arguments LIBRARY_PATH : simpl never.

Ltac run_monad :=
  unfold _load_library, _save_library, read_file, write_file, datetime_now,
    raise, mbind, M_bind, mret, M_ret; simpl.

(** *** The operations, claim by claim *)

(** C1: a draft save on a key whose entry is curated returns that entry and
    changes nothing: the file, and so every field of the entry, is as
    before. *)
Theorem save_draft_curated_noop
    (domains : list string) (system_prompt user_intent generated_by : string)
    (w : world) (e : Entry) :
  stored domains w = Some e →
  status e = curated →
  save_draft domains system_prompt user_intent generated_by w = (Ok e, w).
Proof.
  destruct w as [[lib|] c]; [| done].
  unfold stored, entry_at; simpl. intros Hk Hst.
  unfold save_draft. run_monad. rewrite Hk. by destruct (decide _).
Qed.

Lemma find_version_None (v : Z) (hist : list Snapshot) :
  find_version v hist = None ↔ ∀ h, h ∈ hist → h_version h ≠ v.
Proof.
  induction hist as [|h hist IH]; simpl.
  - split; [intros _ h Hh; inversion Hh | done].
  - destruct (decide (h_version h = v)) as [Heq|Hne].
    + split; [done | intros Hall]. destruct (Hall h); [left | done].
    + rewrite IH. split.
      * intros Hall h' Hh'. apply elem_of_cons in Hh' as [->|Hin]; auto.
      * intros Hall h' Hh'. apply Hall. by right.
Qed.

(** C7: a rollback to a version that no snapshot of the history carries
    raises the version-not-found error; the file is not written and the
    world, so the entry too, is as before. *)
Theorem rollback_version_not_found
    (domains : list string) (to_version : Z) (w : world) (e : Entry) :
  stored domains w = Some e →
  (∀ h, h ∈ history e → h_version h ≠ to_version) →
  rollback domains to_version w = (Raise (VersionNotFound to_version), w).
Proof.
  destruct w as [[lib|] c]; [| done].
  unfold stored, entry_at; simpl. intros Hk Habsent.
  unfold rollback. run_monad. rewrite Hk.
  apply find_version_None in Habsent. by rewrite Habsent.
Qed.

(** C10: curating with the empty string as edited text is the same call as
    curating without edited text: the entry becomes curated, its version
    grows by one and its text stays. *)
Theorem curate_empty_edit_keeps_text
    (domains : list string) (curator notes : string) (w : world) (e : Entry) :
  stored domains w = Some e →
  curate_prompt domains (Some "") curator notes w
    = curate_prompt domains None curator notes w
  ∧ ∃ e' w',
      curate_prompt domains (Some "") curator notes w = (Ok e', w')
      ∧ stored domains w' = Some e'
      ∧ status e' = curated
      ∧ version e' = version e + 1
      ∧ system_prompt e' = system_prompt e.
Proof.
  intros Hst. split; [reflexivity |].
  destruct w as [[lib|] c]; [| done].
  unfold stored, entry_at in Hst; simpl in Hst.
  unfold curate_prompt. run_monad. rewrite Hst. simpl.
  eexists _, _. split; [reflexivity |].
  unfold stored, entry_at; simpl. by rewrite lookup_insert_eq.
Qed.

(** C5: on a draft entry, a logged run that brings the counter to 20 or
    more with an average above 0.6 makes the entry evolving; with an
    average of at most 0.6 it stays a draft.  In both cases the version and
    the history are the ones from before the call. *)
Theorem log_run_auto_promotion
    (domains : list string) (confidence : F) (regime : string)
    (conflicts : list string) (w : world) (e : Entry) :
  stored domains w = Some e →
  status e = draft →
  0 ≤ runs (performance e) →
  ∃ e' w',
    log_run domains confidence regime conflicts w = (Ok tt, w')
    ∧ stored domains w' = Some e'
    ∧ version e' = version e
    ∧ history e' = history e
    ∧ runs (performance e') = runs (performance e) + 1
    ∧ (20 ≤ runs (performance e') →
       fgt (avg_confidence (performance e')) lit_0_6 = true →
       status e' = evolving)
    ∧ (fle (avg_confidence (performance e')) lit_0_6 = true →
       status e' = draft).
Proof.
  destruct w as [[lib|] c]; [| done].
  unfold stored, entry_at; simpl. intros Hk Hst Hruns.
  unfold log_run. run_monad. rewrite Hk.
  destruct (decide (runs (performance e) + 1 = 0)) as [Hz|_]; [lia |].
  simpl. eexists _, _. split; [reflexivity |].
  unfold stored, entry_at; simpl.
  rewrite lookup_insert_eq. split; [reflexivity |].
  rewrite Hst, bool_decide_eq_true_2 by done. simpl.
  set (avg := fdiv _ _).
  destruct (Z.leb_spec 20 (runs (performance e) + 1)) as [Hge|Hlt];
    destruct (fgt avg lit_0_6) eqn:Havg; simpl;
    repeat split; try done; try lia.
  intros Hle. destruct (fgt_fle _ _ Havg Hle).
Qed.

(** *** Versions stay ordered *)

Lemma versions_ordered_archive (e : Entry) (t : timestamp) (v : Z) :
  versions_ordered e → version e < v →
  StronglySorted Z.lt ((h_version <$> history e ++ [archive e t]) ++ [v]).
Proof.
  unfold versions_ordered. intros Hs Hv. rewrite fmap_app. simpl.
  apply StronglySorted_app in Hs as (Hlt & Hh & _).
  apply StronglySorted_app_2.
  - intros x1 x2 Hx1 Hx2. apply list_elem_of_singleton in Hx2 as ->.
    apply elem_of_app in Hx1 as [Hx1|Hx1].
    + specialize (Hlt x1 (version e) Hx1). rewrite list_elem_of_singleton in Hlt.
      specialize (Hlt eq_refl). lia.
    + apply list_elem_of_singleton in Hx1 as ->. done.
  - apply StronglySorted_app_2; [| done | repeat constructor].
    intros x1 x2 Hx1 Hx2. apply list_elem_of_singleton in Hx2 as ->.
    apply Hlt; [done | by apply list_elem_of_singleton].
  - repeat constructor.
Qed.

Lemma versions_ordered_last_n (n : nat) (hist : list Snapshot) (v : Z) :
  StronglySorted Z.lt ((h_version <$> hist) ++ [v]) →
  StronglySorted Z.lt ((h_version <$> Py.last_n n hist) ++ [v]).
Proof.
  unfold Py.last_n. intros Hs.
  rewrite <- (take_drop (length hist - n) hist), fmap_app, <- app_assoc in Hs.
  by apply StronglySorted_app_1_r in Hs.
Qed.

Lemma entry_at_set_prompt (lib : Library) (k k' : string) (e' : Entry) (c : nat) :
  entry_at k' {| disk := Some (set_prompt lib k e'); clock := c |}
  = if decide (k = k') then Some e' else prompts lib !! k'.
Proof. unfold entry_at; simpl. apply lookup_insert. Qed.

Lemma world_ok_set_prompt (lib : Library) (k : string) (e' : Entry) (c c' : nat) :
  world_ok {| disk := Some lib; clock := c |} →
  versions_ordered e' →
  world_ok {| disk := Some (set_prompt lib k e'); clock := c' |}.
Proof.
  intros Hok He' k' e. rewrite entry_at_set_prompt.
  case_decide; [by intros [= <-] | apply (Hok k')].
Qed.

Lemma world_ok_del_prompt (lib : Library) (k : string) (c c' : nat) :
  world_ok {| disk := Some lib; clock := c |} →
  world_ok {| disk := Some (del_prompt lib k); clock := c' |}.
Proof.
  intros Hok k' e. unfold entry_at; simpl.
  rewrite lookup_delete_Some. intros [_ Hl]. by apply (Hok k').
Qed.

Lemma world_ok_fresh (t : timestamp) (c : nat) :
  world_ok {| disk := Some {| prompts := ∅; metadata_created := t |};
              clock := c |}.
Proof. intros k e. unfold entry_at; simpl. by rewrite lookup_empty. Qed.

Lemma versions_ordered_first (e : Entry) :
  history e = [] → versions_ordered e.
Proof. unfold versions_ordered. intros ->. simpl. repeat constructor. Qed.

Lemma exec_ok (o : op) (w : world) : world_ok w → world_ok (exec o w).
Proof.
  destruct w as [[lib|] c]; intros Hok.
  - destruct o as [d sp ui gb|d ed cu no|d cf r cs|d v|d]; simpl.
    + unfold save_draft. run_monad.
      destruct (prompts lib !! _domain_key d) as [ex|] eqn:Hk.
      * destruct (decide (status ex = curated)); simpl; [done |].
        apply (world_ok_set_prompt _ _ _ c); [done |].
        apply versions_ordered_last_n, versions_ordered_archive; [| simpl; lia].
        by apply (Hok (_domain_key d)).
      * simpl. apply (world_ok_set_prompt _ _ _ c); [done |].
        by apply versions_ordered_first.
    + unfold curate_prompt. run_monad.
      destruct (prompts lib !! _domain_key d) as [ex|] eqn:Hk; simpl; [| done].
      apply (world_ok_set_prompt _ _ _ c); [done |].
      assert (versions_ordered ex) as Hex by by apply (Hok (_domain_key d)).
      destruct ed as [ed|]; [destruct (Py.truthy ed) |];
        apply versions_ordered_last_n, versions_ordered_archive;
        simpl; first [done | lia].
    + unfold log_run. run_monad.
      destruct (prompts lib !! _domain_key d) as [ex|] eqn:Hk; simpl; [| done].
      destruct (decide _); simpl; [done |].
      apply (world_ok_set_prompt _ _ _ c); [done |].
      assert (versions_ordered ex) as Hex by by apply (Hok (_domain_key d)).
      by destruct (_ && _).
    + unfold rollback. run_monad.
      destruct (prompts lib !! _domain_key d) as [ex|] eqn:Hk; simpl; [| done].
      destruct (find_version v (history ex)) as [tg|]; simpl; [| done].
      apply (world_ok_set_prompt _ _ _ c); [done |].
      apply versions_ordered_archive; [| simpl; lia].
      by apply (Hok (_domain_key d)).
    + unfold delete_prompt. run_monad.
      destruct (prompts lib !! _domain_key d) as [ex|] eqn:Hk; simpl; [| done].
      by apply (world_ok_del_prompt _ _ c).
  - destruct o as [d sp ui gb|d ed cu no|d cf r cs|d v|d]; simpl.
    + unfold save_draft. run_monad. rewrite lookup_empty. simpl.
      apply (world_ok_set_prompt _ _ _ c); [apply world_ok_fresh |].
      by apply versions_ordered_first.
    + unfold curate_prompt. run_monad. by rewrite lookup_empty.
    + unfold log_run. run_monad. by rewrite lookup_empty.
    + unfold rollback. run_monad. by rewrite lookup_empty.
    + unfold delete_prompt. run_monad. by rewrite lookup_empty.
Qed.

Lemma reachable_ok (w : world) : reachable w → world_ok w.
Proof.
  induction 1 as [c|o w _ IH]; [| by apply exec_ok].
  intros k e. unfold entry_at. done.
Qed.

Lemma reachable_exec_all (os : list op) (w : world) :
  reachable w → reachable (exec_all os w).
Proof.
  revert w. induction os as [|o os IH]; intros w Hw; [done |].
  apply IH. by constructor.
Qed.

Lemma reachable_after (os : list op) : reachable (after os).
Proof. apply reachable_exec_all. constructor. Qed.

Lemma find_version_sorted (hist : list Snapshot) (h : Snapshot) :
  StronglySorted Z.lt (h_version <$> hist) →
  h ∈ hist →
  find_version (h_version h) hist = Some h.
Proof.
  induction hist as [|h0 hist IH]; simpl; intros Hs Hin; [by inversion Hin |].
  apply StronglySorted_cons in Hs as [Hlt Hs].
  apply elem_of_cons in Hin as [->|Hin].
  - by rewrite decide_True.
  - rewrite Forall_forall in Hlt.
    assert (h_version h0 < h_version h) by (apply Hlt, list_elem_of_fmap; eauto).
    rewrite decide_False by lia. by apply IH.
Qed.

(** C6: in a world produced by the operations, a rollback to the version of
    any snapshot kept in the history succeeds, stores the snapshot's text
    and status, and numbers the result one above the version before the
    rollback, which differs from the version rolled back to. *)
Theorem rollback_restores_with_new_version
    (domains : list string) (w : world) (e : Entry) (h : Snapshot) :
  reachable w →
  stored domains w = Some e →
  h ∈ history e →
  ∃ e' w',
    rollback domains (h_version h) w = (Ok e', w')
    ∧ stored domains w' = Some e'
    ∧ system_prompt e' = h_system_prompt h
    ∧ status e' = h_status h
    ∧ version e' = version e + 1
    ∧ version e < version e'
    ∧ version e' ≠ h_version h.
Proof.
  intros Hreach Hst Hin.
  pose proof (reachable_ok w Hreach _ _ Hst) as Hord.
  unfold versions_ordered in Hord.
  apply StronglySorted_app in Hord as (Hbelow & Hsorted & _).
  assert (h_version h < version e) as Hlt.
  { apply Hbelow; [apply list_elem_of_fmap; eauto | by apply list_elem_of_singleton]. }
  destruct w as [[lib|] c]; [| done].
  unfold stored, entry_at in Hst; simpl in Hst.
  unfold rollback. run_monad. rewrite Hst.
  rewrite (find_version_sorted _ _ Hsorted Hin). simpl.
  eexists _, _. split; [reflexivity |].
  unfold stored. rewrite entry_at_set_prompt, decide_True by done.
  simpl. repeat split; lia.
Qed.

(** *** Curation marks *)

Lemma curation_marks_set_prompt
    (lib : Library) (k k' : string) (e' : Entry) (c c' : nat) :
  curation_marks k' {| disk := Some (set_prompt lib k e'); clock := c |}
  = if decide (k = k') then Some (curated_at e', curated_by e')
    else curation_marks k' {| disk := Some lib; clock := c' |}.
Proof.
  unfold curation_marks. rewrite entry_at_set_prompt. by case_decide.
Qed.

(** C8, as the code has it: the curation marks of a stored entry are left
    as they are by a logged run and by a rollback, and by a draft save on
    another key or on a curated entry; a draft save that overwrites the
    entry (status draft or evolving) resets both marks to none.  None of
    the three operations ever sets a mark. *)
Theorem curation_marks_frame (k : string) (w : world) (e : Entry) :
  entry_at k w = Some e →
  (∀ d c r cs, curation_marks k (exec (LogRun d c r cs) w) = curation_marks k w)
  ∧ (∀ d v, curation_marks k (exec (Rollback d v) w) = curation_marks k w)
  ∧ (∀ d sp ui gb,
       curation_marks k (exec (SaveDraft d sp ui gb) w)
       = if decide (_domain_key d = k ∧ status e ≠ curated)
         then Some (None, None)
         else curation_marks k w).
Proof.
  destruct w as [[lib|] c]; [| done].
  unfold entry_at; simpl. intros Hk.
  assert (curation_marks k {| disk := Some lib; clock := c |}
          = Some (curated_at e, curated_by e)) as Hm.
  { unfold curation_marks, entry_at; simpl. by rewrite Hk. }
  split; [| split].
  - intros d cf r cs. simpl. unfold log_run. run_monad.
    destruct (prompts lib !! _domain_key d) as [ex|] eqn:Hd; simpl; [| done].
    destruct (decide _); simpl; [done |].
    rewrite (curation_marks_set_prompt _ _ _ _ _ c).
    case_decide as Heq; [| done]. subst k. rewrite Hm.
    assert (ex = e) as -> by congruence. by destruct (_ && _).
  - intros d v. simpl. unfold rollback. run_monad.
    destruct (prompts lib !! _domain_key d) as [ex|] eqn:Hd; simpl; [| done].
    destruct (find_version v (history ex)); simpl; [| done].
    rewrite (curation_marks_set_prompt _ _ _ _ _ c).
    case_decide as Heq; [| done]. subst k. rewrite Hm.
    by assert (ex = e) as -> by congruence.
  - intros d sp ui gb. simpl. unfold save_draft. run_monad.
    destruct (prompts lib !! _domain_key d) as [ex|] eqn:Hd.
    + destruct (decide (status ex = curated)) as [Hc|Hc]; simpl.
      * rewrite decide_False; [done |]. intros [<- Hn]. congruence.
      * rewrite (curation_marks_set_prompt _ _ _ _ _ c). simpl.
        case_decide as Heq.
        -- subst k. rewrite decide_True; [done |]. split; congruence.
        -- rewrite decide_False; [done | tauto].
    + simpl. rewrite (curation_marks_set_prompt _ _ _ _ _ c). simpl.
      case_decide as Heq; [congruence |].
      rewrite decide_False; [done | tauto].
Qed.

(** *** The cap on the history *)

Lemma last_n_length {A} (n : nat) (l : list A) : (length (Py.last_n n l) ≤ n)%nat.
Proof. unfold Py.last_n. rewrite length_drop. lia. Qed.

Lemma last_n_evicts_oldest {A} (n : nat) (x y : A) (l : list A) :
  length l = n → Py.last_n (S n) ((x :: l) ++ [y]) = l ++ [y].
Proof.
  intros Hl. unfold Py.last_n. simpl. rewrite length_app. simpl.
  by replace (length l + 1 - n)%nat with 1%nat by lia.
Qed.

(** a draft save that writes, and a curation, keep at most ten snapshots *)
Lemma save_draft_caps_history
    (d : list string) (sp ui gb : string) (w : world) (e' : Entry) :
  stored d (exec (SaveDraft d sp ui gb) w) = Some e' →
  status e' = draft →
  (length (history e') ≤ 10)%nat.
Proof.
  destruct w as [[lib|] c]; unfold stored, entry_at; simpl;
    unfold save_draft; run_monad.
  - destruct (prompts lib !! _domain_key d) as [ex|] eqn:Hk.
    + destruct (decide (status ex = curated)) as [Hc|Hc]; simpl.
      * rewrite Hk. intros [= <-]. congruence.
      * rewrite lookup_insert_eq. intros [= <-] _. apply last_n_length.
    + simpl. rewrite lookup_insert_eq. intros [= <-] _. simpl. lia.
  - rewrite lookup_empty. simpl. rewrite lookup_insert_eq.
    intros [= <-] _. simpl. lia.
Qed.

Lemma curate_caps_history
    (d : list string) (ed : option string) (cu no : string)
    (w : world) (e' : Entry) :
  stored d (exec (Curate d ed cu no) w) = Some e' →
  (length (history e') ≤ 10)%nat.
Proof.
  destruct w as [[lib|] c]; unfold stored, entry_at; simpl;
    unfold curate_prompt; run_monad.
  - destruct (prompts lib !! _domain_key d) as [ex|] eqn:Hk; simpl.
    + rewrite lookup_insert_eq. intros [= <-].
      destruct ed as [ed|]; [destruct (Py.truthy ed) |]; apply last_n_length.
    + by rewrite Hk.
  - by rewrite lookup_empty.
Qed.

(** a rollback that finds its target adds a snapshot and cuts nothing *)
Lemma rollback_grows_history
    (d : list string) (v : Z) (w : world) (e : Entry) (t : Snapshot) :
  stored d w = Some e →
  find_version v (history e) = Some t →
  history_length d (exec (Rollback d v) w) = Some (S (length (history e))).
Proof.
  destruct w as [[lib|] c]; [| done].
  unfold history_length, stored, entry_at; simpl. intros Hk Hf.
  unfold rollback. run_monad. rewrite Hk, Hf. simpl.
  rewrite lookup_insert_eq. simpl. rewrite length_app. simpl.
  f_equal. lia.
Qed.

(** *** Stopping in the middle of a save *)

Lemma writes_lookup (toks pre : list token) (fs : files) (n : nat) :
  fs !! LIBRARY_PATH = Some pre →
  foldl perform fs
    (take n ((Write LIBRARY_PATH <$> toks) ++ [Close LIBRARY_PATH]))
    !! LIBRARY_PATH
  = Some (pre ++ take n toks).
Proof.
  revert pre fs n. induction toks as [|t toks IH]; intros pre fs n Hpre.
  - destruct n as [|[|n]]; simpl; by rewrite app_nil_r.
  - destruct n as [|n]; simpl; [by rewrite app_nil_r |].
    rewrite (IH (pre ++ [t])).
    + by rewrite <- app_assoc.
    + simpl. by rewrite lookup_alter_eq, Hpre.
Qed.

(** C9, as the code has it: the save opens the library file itself for
    writing, which empties it, and then writes the new text into it.
    Stopped before the open, the file is as it was; stopped after the
    open and [n] further calls, the file holds the first [n] tokens of
    the new text and nothing else; left to complete, it holds the whole
    new text. *)
Theorem save_writes_in_place (lib : Library) (fs : files) :
  interrupted 0 lib fs !! LIBRARY_PATH = fs !! LIBRARY_PATH
  ∧ interrupted 1 lib fs !! LIBRARY_PATH = fs !! LIBRARY_PATH
  ∧ (∀ n, interrupted (2 + n) lib fs !! LIBRARY_PATH
          = Some (take n (json_dump lib)))
  ∧ holds (completed lib fs) lib.
Proof.
  split; [done |]. split; [done |].
  assert (∀ n, interrupted (2 + n) lib fs !! LIBRARY_PATH
               = Some (take n (json_dump lib))) as Hn.
  { intros n. unfold interrupted, _save_library_calls.
    cbn [firstn app foldl perform Nat.add].
    rewrite (writes_lookup _ []); [done |]. apply lookup_insert_eq. }
  split; [exact Hn |].
  unfold holds, completed.
  rewrite <- (take_ge (_save_library_calls lib)
                (2 + (length (json_dump lib) + 1))).
  - fold (interrupted (2 + (length (json_dump lib) + 1)) lib fs).
    rewrite Hn, take_ge; [done | lia].
  - unfold _save_library_calls.
    rewrite !length_app, length_fmap. simpl. lia.
Qed.

(** *** One logged run *)

Lemma log_run_stored
    (d : list string) (c : F) (r : string) (cs : list string)
    (w : world) (e : Entry) :
  stored d w = Some e →
  runs (performance e) + 1 ≠ 0 →
  ∃ e',
    stored d (exec (LogRun d c r cs) w) = Some e'
    ∧ runs (performance e') = runs (performance e) + 1
    ∧ avg_confidence (performance e')
      = fdiv (fadd (fmul (avg_confidence (performance e))
                         (of_int (runs (performance e) + 1 - 1))) c)
             (of_int (runs (performance e) + 1)).
Proof.
  destruct w as [[lib|] k]; [| done].
  unfold stored, entry_at; simpl. intros Hk Hruns.
  unfold log_run. run_monad. rewrite Hk.
  destruct (decide _) as [Hz|Hnz]; [done |]. simpl.
  rewrite lookup_insert_eq. eexists. split; [reflexivity |].
  by destruct (_ && _).
Qed.

End Lifecycle.

(** *** The digest and the key on known values *)

Example md5_empty :
  MD5.hexdigest (MD5.encode "") = "d41d8cd98f00b204e9800998ecf8427e".
Proof. vm_compute. reflexivity. Qed.

Example md5_abc :
  MD5.hexdigest (MD5.encode "abc") = "900150983cd24fb0d6963f7d28e17f72".
Proof. vm_compute. reflexivity. Qed.

Example md5_two_blocks :
  MD5.hexdigest (MD5.encode
    "aaaaaaaaaaaaaaaaaaaaaaaaaaaaaaaaaaaaaaaaaaaaaaaaaaaaaaaaaaaaaaaa")
  = "014842d480b571495a4a0363793f7367".
Proof. vm_compute. reflexivity. Qed.

Example normalize_examples :
  normalize "  Real Estate " = "real_estate" ∧ normalize "a  b" = "a__b".
Proof. vm_compute. done. Qed.

Example domain_key_tags : _domain_key tags = "91343e63fb1e".
Proof. vm_compute. reflexivity. Qed.

Lemma sorted_Permutation (l1 l2 : list string) :
  l1 ≡ₚ l2 → Py.sorted l1 = Py.sorted l2.
Proof.
  intros Hp. unfold Py.sorted.
  apply (Sorted_unique String.le); try apply Sorted_merge_sort; try apply _.
  by rewrite !merge_sort_Permutation.
Qed.

(** in particular the order of the tags does not matter *)
Lemma domain_key_permutation (A B : list string) :
  A ≡ₚ B → _domain_key A = _domain_key B.
Proof.
  intros Hp. unfold _domain_key.
  by rewrite (sorted_Permutation (normalize <$> A) (normalize <$> B))
    by by rewrite Hp.
Qed.

(** *** The code's normalisation against the specification's *)














(** *** The scenario, evaluated in binary64 *)

Lemma save_draft_curated_noop_witness :
  let w : @world float := after [first_draft; approve] in
  ∃ e, stored tags w = Some e
       ∧ status e = curated
       ∧ save_draft tags "v2" "intent" "auto" w = (Ok e, w).
Proof.
  intros w. eexists. split; [vm_compute; reflexivity |].
  split; [reflexivity |].
  apply save_draft_curated_noop; [vm_compute; reflexivity | reflexivity].
Defined.

(** C2 on the code: eleven draft saves fill the history up to the cap of
    ten; a rollback then archives the current state without cutting the
    history, which holds eleven snapshots, the oldest still first. *)
Theorem rollback_history_exceeds_cap :
  let w : @world float := after (replicate 11 first_draft) in
  history_length tags w = Some 10%nat
  ∧ history_length tags (exec (Rollback tags 5) w) = Some 11%nat
  ∧ (λ e, h_version <$> history e) <$> stored tags (exec (Rollback tags 5) w)
    = Some [1; 2; 3; 4; 5; 6; 7; 8; 9; 10; 11].
Proof. vm_compute. done. Qed.

(** C8 as stated fails: after a curated entry is rolled back to a draft
    snapshot it still carries its curation marks, and the next draft save
    clears both. *)
Lemma save_draft_clears_curation_marks :
  let w : @world float := after [first_draft; approve; Rollback tags 1] in
  curation_marks (_domain_key tags) w = Some (Some 4%nat, Some "human")
  ∧ curation_marks (_domain_key tags) (exec second_draft w) = Some (None, None).
Proof. vm_compute. done. Qed.

Lemma curation_marks_frame_witness :
  let w : @world float := after [first_draft; approve; Rollback tags 1] in
  let k := _domain_key tags in
  ∃ e, entry_at k w = Some e
       ∧ curation_marks k (exec (LogRun tags 0.75%float "calm" []) w)
         = curation_marks k w
       ∧ curation_marks k (exec (Rollback tags 2) w) = curation_marks k w
       ∧ curation_marks k (exec (SaveDraft tags "v2" "intent" "auto") w)
         = Some (None, None).
Proof.
  intros w k. eexists. split; [vm_compute; reflexivity |].
  pose proof (curation_marks_frame k w _ ltac:(vm_compute; reflexivity))
    as (Hlog & Hroll & Hsave).
  split; [apply Hlog |]. split; [apply Hroll |].
  etrans; [apply Hsave |]. vm_compute. reflexivity.
Defined.

Lemma log_run_auto_promotion_witness :
  let w : @world float :=
    after (first_draft :: log_runs tags (replicate 19 (0.75%float, "calm", []))) in
  ∃ e, stored tags w = Some e
       ∧ status e = draft
       ∧ 0 ≤ runs (performance e)
       ∧ ∃ e' w',
           log_run tags 0.75%float "calm" [] w = (Ok tt, w')
           ∧ stored tags w' = Some e'
           ∧ version e' = version e
           ∧ history e' = history e
           ∧ runs (performance e') = runs (performance e) + 1
           ∧ (20 ≤ runs (performance e') →
              fgt (avg_confidence (performance e')) lit_0_6 = true →
              status e' = evolving)
           ∧ (fle (avg_confidence (performance e')) lit_0_6 = true →
              status e' = draft).
Proof.
  intros w. eexists. split; [vm_compute; reflexivity |].
  split; [reflexivity |]. split; [simpl; lia |].
  apply log_run_auto_promotion; [vm_compute; reflexivity | reflexivity | simpl; lia].
Defined.

Example promotion_on_twentieth_run :
  let w : @world float :=
    after (first_draft :: log_runs tags (replicate 19 (0.75%float, "calm", []))) in
  (λ e, (status e, runs (performance e), avg_confidence (performance e)))
    <$> stored tags w = Some (draft, 19, 0.75%float)
  ∧ (λ e, (status e, runs (performance e), avg_confidence (performance e)))
    <$> stored tags (exec (LogRun tags 0.75%float "calm" []) w)
    = Some (evolving, 20, 0.75%float).
Proof. vm_compute. done. Qed.

Example no_promotion_on_low_confidence :
  let w : @world float :=
    after (first_draft :: log_runs tags (replicate 20 (0.5%float, "calm", []))) in
  (λ e, (status e, runs (performance e), avg_confidence (performance e)))
    <$> stored tags w = Some (draft, 20, 0.5%float).
Proof. vm_compute. done. Qed.

Example running_average_binary64 :
  let w : @world float :=
    after (first_draft
             :: log_runs tags [(0.5%float, "calm", []); (0.75%float, "calm", []);
                               (1%float, "storm", ["rates"])]) in
  (λ e, (runs (performance e), avg_confidence (performance e),
         regime_changes (performance e), conflicts_detected (performance e)))
    <$> stored tags w = Some (3, 0.75%float, 1, 1).
Proof. vm_compute. done. Qed.

Lemma rollback_restores_with_new_version_witness :
  let w : @world float := after [first_draft; second_draft] in
  ∃ e h, reachable w
         ∧ stored tags w = Some e
         ∧ h ∈ history e
         ∧ h_version h = 1
         ∧ ∃ e' w', rollback tags (h_version h) w = (Ok e', w')
                    ∧ stored tags w' = Some e'
                    ∧ system_prompt e' = h_system_prompt h
                    ∧ status e' = h_status h
                    ∧ version e' = version e + 1
                    ∧ version e < version e'
                    ∧ version e' ≠ h_version h.
Proof.
  intros w. eexists _, _. split; [apply reachable_after |].
  split; [vm_compute; reflexivity |].
  split; [simpl; apply list_elem_of_here |]. split; [reflexivity |].
  apply rollback_restores_with_new_version;
    [apply reachable_after | vm_compute; reflexivity
    | simpl; apply list_elem_of_here].
Defined.

Lemma rollback_version_not_found_witness :
  let w : @world float := after [first_draft; second_draft] in
  ∃ e, stored tags w = Some e
       ∧ (∀ h, h ∈ history e → h_version h ≠ 7)
       ∧ rollback tags 7 w = (Raise (VersionNotFound 7), w).
Proof.
  intros w. eexists. split; [vm_compute; reflexivity |].
  assert (∀ h : Snapshot,
            h ∈ [Build_Snapshot 1 "v1" draft 3%nat] → h_version h ≠ 7) as Hab.
  { intros h Hin. apply list_elem_of_singleton in Hin as ->. simpl. lia. }
  split; [exact Hab |].
  eapply (rollback_version_not_found tags 7 w);
    [vm_compute; reflexivity | exact Hab].
Defined.

Lemma curate_empty_edit_keeps_text_witness :
  let w : @world float := after [first_draft] in
  ∃ e, stored tags w = Some e
       ∧ curate_prompt tags (Some "") "human" "ok" w
         = curate_prompt tags None "human" "ok" w
       ∧ ∃ e' w', curate_prompt tags (Some "") "human" "ok" w = (Ok e', w')
                  ∧ stored tags w' = Some e'
                  ∧ status e' = curated
                  ∧ version e' = version e + 1
                  ∧ system_prompt e' = system_prompt e.
Proof.
  intros w. eexists. split; [vm_compute; reflexivity |].
  apply curate_empty_edit_keeps_text. vm_compute. reflexivity.
Defined.

(** C9 as stated fails: a save stopped right after the file is opened
    leaves it empty, which is neither the text of the document it held
    nor the text of the new one; stopped three writes later, it holds
    the beginning of the new text only. *)
Lemma interrupted_save_leaves_partial_file :
  let old : @Library float := on_disk (after [first_draft]) in
  let new : @Library float := on_disk (after [first_draft; second_draft]) in
  let fs : gmap string (list token) := {[ LIBRARY_PATH := json_dump old ]} in
  holds fs old
  ∧ interrupted 2 new fs !! LIBRARY_PATH = Some []
  ∧ ¬ holds (interrupted 2 new fs) old
  ∧ ¬ holds (interrupted 2 new fs) new
  ∧ interrupted 5 new fs !! LIBRARY_PATH
    = Some [ObjOpen; Key "prompts"; ObjOpen]
  ∧ ¬ holds (interrupted 5 new fs) old
  ∧ ¬ holds (interrupted 5 new fs) new.
Proof.
  intros old new fs. unfold holds.
  repeat split; try (vm_compute; reflexivity); vm_compute; discriminate.
Qed.

(** *** Running average in binary64

    The three operations of the update, [*], [+] and [/], are specified by
    the kernel through [SFmul], [SFadd] and [SFdiv]; each rounds the exact
    result to the nearest binary64 number.  What follows derives the error
    of one rounding from these definitions, and from it the distance of the
    stored average to the arithmetic mean. *)

(** *** Powers of two *)

Lemma pow2_pos (e : Z) : (0 < pow2 e)%Q.
Proof. apply Qpower_0_lt. reflexivity. Qed.

Lemma pow2_add (a b : Z) : (pow2 (a + b) == pow2 a * pow2 b)%Q.
Proof. apply Qpower_plus. discriminate. Qed.

Lemma pow2_Z (n : Z) : 0 ≤ n → (pow2 n == inject_Z (2 ^ n))%Q.
Proof. intros Hn. unfold pow2. by rewrite (Zpower_Qpower 2 n Hn). Qed.

Lemma pow2_le (a b : Z) : a ≤ b → (pow2 a <= pow2 b)%Q.
Proof.
  intros Hab. replace b with (a + (b - a)) by lia.
  rewrite pow2_add, (pow2_Z (b - a)) by lia.
  assert (0 < 2 ^ (b - a)) as H by (apply Z.pow_pos_nonneg; lia).
  assert (1 <= inject_Z (2 ^ (b - a)))%Q as HQ.
  { change 1%Q with (inject_Z 1). rewrite <- Zle_Qle. lia. }
  pose proof (pow2_pos a). nra.
Qed.

Lemma pow2_lt_inv (a b : Z) : (pow2 a < pow2 b)%Q → a < b.
Proof.
  intros Hlt. destruct (Z_lt_le_dec a b) as [|Hle]; [done |].
  apply pow2_le in Hle. lra.
Qed.

(** *** Number of binary digits *)

Lemma digits2_size (p : positive) : digits2_pos p = Pos.size p.
Proof. induction p; simpl; congruence. Qed.

Lemma Zdigits2_log2 (m : Z) : 0 < m → Zdigits2 m = Z.log2 m + 1.
Proof.
  destruct m as [|p|p]; try lia. intros _. simpl.
  rewrite digits2_size. destruct p; simpl; lia.
Qed.

Lemma Zdigits2_bounds (m : Z) :
  0 < m → 2 ^ (Zdigits2 m - 1) ≤ m < 2 ^ Zdigits2 m.
Proof.
  intros Hm. rewrite (Zdigits2_log2 m Hm).
  replace (Z.log2 m + 1 - 1) with (Z.log2 m) by lia.
  replace (Z.log2 m + 1) with (Z.succ (Z.log2 m)) by lia.
  by apply Z.log2_spec.
Qed.

Lemma Zdigits2_unique (m k : Z) :
  2 ^ (k - 1) ≤ m < 2 ^ k → 0 < m → Zdigits2 m = k.
Proof.
  intros [Hlo Hhi] Hm. rewrite (Zdigits2_log2 m Hm).
  assert (0 < k) as Hk.
  { destruct (Z_lt_le_dec 0 k); [done |].
    destruct (Z.eq_dec k 0) as [-> | ]; [simpl in Hhi; lia |].
    rewrite Z.pow_neg_r in Hhi by lia. lia. }
  assert (Z.log2 m = k - 1); [| lia].
  apply Z.log2_unique; [lia |]. replace (Z.succ (k - 1)) with k by lia. done.
Qed.

Lemma Zdigits2_nonneg (m : Z) : 0 ≤ Zdigits2 m.
Proof. destruct m; simpl; lia. Qed.

Lemma Zdigits2_pos (m : Z) : 0 < m → 0 < Zdigits2 m.
Proof. destruct m; simpl; lia. Qed.

(** *** Shifting right with round and sticky bits *)

Lemma inject_Z_xO (p : positive) :
  (inject_Z (Z.pos p~0) == 2 * inject_Z (Z.pos p))%Q.
Proof. unfold Qeq, inject_Z. simpl. lia. Qed.

Lemma inject_Z_xI (p : positive) :
  (inject_Z (Z.pos p~1) == 2 * inject_Z (Z.pos p) + 1)%Q.
Proof. unfold Qeq, inject_Z, Qplus, Qmult. simpl. lia. Qed.

Lemma loc_ok_compat (l : location) (f g : Q) :
  (f == g)%Q → loc_ok l f → loc_ok l g.
Proof. intros Hfg. destruct l as [|[]]; simpl; lra. Qed.

Lemma shr_1_represents (mrs : shr_record) (y : Q) :
  represents mrs y →
  represents (shr_1 mrs) (y * (1 # 2))%Q
  ∧ shr_m (shr_1 mrs) = shr_m mrs / 2.
Proof.
  destruct mrs as [m r s]. unfold represents. simpl. intros [Hm Hl].
  destruct m as [|[p|p|]|]; try lia; simpl.
  - split; [| done]. split; [lia |].
    destruct r, s; simpl in *; unfold inject_Z in *; lra.
  - split; [| apply (Z.div_unique _ 2 _ 1); [lia | by rewrite Pos2Z.inj_xI]].
    split; [lia |].
    pose proof (inject_Z_xI p) as Hp.
    destruct r, s; simpl in *; lra.
  - split; [| apply (Z.div_unique _ 2 _ 0); [lia | rewrite Pos2Z.inj_xO; lia]].
    split; [lia |].
    pose proof (inject_Z_xO p) as Hp.
    destruct r, s; simpl in *; lra.
  - split; [| done]. split; [lia |].
    destruct r, s; simpl in *; unfold inject_Z in *; lra.
Qed.

Lemma iter_pos_invariant {A} (f : A → A) (P : Z → A → Prop) :
  (∀ k a, P k a → P (k + 1) (f a)) →
  ∀ p k a, P k a → P (k + Z.pos p) (SpecFloat.iter_pos f p a).
Proof.
  intros Hstep. induction p as [p IH|p IH|]; intros k a Ha; simpl.
  - replace (k + Z.pos p~1) with (k + 1 + Z.pos p + Z.pos p) by lia.
    by apply IH, IH, Hstep.
  - replace (k + Z.pos p~0) with (k + Z.pos p + Z.pos p) by lia.
    by apply IH, IH.
  - by apply Hstep.
Qed.

Lemma pow2_opp_succ (k : Z) : (pow2 (- (k + 1)) == pow2 (- k) * (1 # 2))%Q.
Proof.
  replace (- (k + 1)) with (- k + -1) by lia. rewrite pow2_add. reflexivity.
Qed.

Lemma shr_represents (mrs : shr_record) (e n : Z) (y : Q) :
  represents mrs y →
  let k := Z.max n 0 in
  represents (shr mrs e n).1 (y * pow2 (- k))%Q
  ∧ shr_m (shr mrs e n).1 = shr_m mrs / 2 ^ k
  ∧ (shr mrs e n).2 = e + k.
Proof.
  intros Hy k. subst k.
  destruct n as [|p|p]; simpl.
  - split; [| split; [by rewrite Z.div_1_r | lia]].
    destruct Hy as [H1 H2]. split; [done |].
    eapply loc_ok_compat; [| exact H2].
    unfold pow2. simpl. ring.
  - pose proof (iter_pos_invariant (A := shr_record) shr_1
      (λ k a, 0 ≤ k ∧ represents a (y * pow2 (- k))%Q
              ∧ shr_m a = shr_m mrs / 2 ^ k)) as Hit.
    destruct (Hit) with (p := p) (k := 0) (a := mrs) as (_ & H1 & H2).
    + intros k a (Hk & Ha & Hm).
      destruct (shr_1_represents a _ Ha) as [Ha' Hm'].
      split; [lia |]. split.
      * destruct Ha' as [Ha1 Ha2]. split; [done |].
        eapply loc_ok_compat; [| exact Ha2].
        by rewrite pow2_opp_succ, Qmult_assoc.
      * rewrite Hm', Hm, Z.pow_add_r, Z.div_div by lia. simpl. done.
    + split; [lia |]. split; [| by rewrite Z.div_1_r].
      destruct Hy as [H1 H2]. split; [done |].
      eapply loc_ok_compat; [| exact H2].
      unfold pow2. simpl. ring.
    + simpl in *. split; [exact H1 |]. split; [exact H2 | lia].
  - split; [| split; [by rewrite Z.div_1_r | lia]].
    destruct Hy as [H1 H2]. split; [done |].
    eapply loc_ok_compat; [| exact H2].
    unfold pow2. simpl. ring.
Qed.

(** *** Digits under shifting and incrementing *)

Lemma Zdigits2_shift (m k : Z) :
  0 < m → 0 ≤ k < Zdigits2 m →
  0 < m / 2 ^ k ∧ Zdigits2 (m / 2 ^ k) = Zdigits2 m - k.
Proof.
  intros Hm Hk. destruct (Zdigits2_bounds m Hm) as [Hlo Hhi].
  set (d := Zdigits2 m) in *.
  assert (0 < 2 ^ k) as Hpk by (apply Z.pow_pos_nonneg; lia).
  assert (2 ^ (d - 1) = 2 ^ (d - k - 1) * 2 ^ k) as E1.
  { rewrite <- Z.pow_add_r by lia. f_equal. lia. }
  assert (2 ^ d = 2 ^ (d - k) * 2 ^ k) as E2.
  { rewrite <- Z.pow_add_r by lia. f_equal. lia. }
  assert (2 ^ (d - k - 1) ≤ m / 2 ^ k) as Hlo'.
  { apply Z.div_le_lower_bound; [done |]. lia. }
  assert (m / 2 ^ k < 2 ^ (d - k)) as Hhi'.
  { apply Z.div_lt_upper_bound; [done |]. lia. }
  assert (0 < 2 ^ (d - k - 1)) by (apply Z.pow_pos_nonneg; lia).
  split; [lia |]. apply Zdigits2_unique; [| lia]. done.
Qed.

Lemma Zdigits2_shift_out (m k : Z) :
  0 ≤ m → 0 ≤ k → Zdigits2 m ≤ k → m / 2 ^ k = 0.
Proof.
  intros Hm Hk Hd. destruct (Z.eq_dec m 0) as [-> | Hne].
  { by apply Z.div_0_l, Z.pow_nonzero. }
  destruct (Zdigits2_bounds m ltac:(lia)) as [_ Hhi].
  apply Z.div_small. split; [done |].
  eapply Z.lt_le_trans; [exact Hhi |]. apply Z.pow_le_mono_r; lia.
Qed.

Lemma Zdigits2_pow2 (k : Z) : 0 ≤ k → Zdigits2 (2 ^ k) = k + 1.
Proof.
  intros Hk. assert (0 < 2 ^ k) by (apply Z.pow_pos_nonneg; lia).
  apply Zdigits2_unique; [| done].
  replace (k + 1 - 1) with k by lia. split; [lia |].
  apply Z.pow_lt_mono_r; lia.
Qed.

Lemma Zdigits2_succ (m : Z) :
  0 < m →
  Zdigits2 (m + 1) = Zdigits2 m
  ∨ (m + 1 = 2 ^ Zdigits2 m ∧ Zdigits2 (m + 1) = Zdigits2 m + 1).
Proof.
  intros Hm. destruct (Zdigits2_bounds m Hm) as [Hlo Hhi].
  pose proof (Zdigits2_pos m Hm) as Hd.
  destruct (Z.eq_dec (m + 1) (2 ^ Zdigits2 m)) as [Heq | Hne].
  - right. split; [done |]. rewrite Heq. apply Zdigits2_pow2. lia.
  - left. apply Zdigits2_unique; lia.
Qed.

(** *** Rounding to nearest, ties to even *)

Lemma round_nearest_even_spec (m : Z) (l : location) (y : Q) :
  0 ≤ m →
  loc_ok l (y - inject_Z m)%Q →
  let m' := round_nearest_even m l in
  (m' = m ∨ m' = m + 1)
  ∧ (l = loc_Exact → m' = m ∧ y == inject_Z m)%Q
  ∧ (inject_Z m' - y <= 1 # 2)%Q
  ∧ (y - inject_Z m' <= 1 # 2)%Q.
Proof.
  intros Hm Hl m'. subst m'.
  assert (inject_Z (m + 1) == inject_Z m + 1)%Q as Hs
    by (rewrite inject_Z_plus; reflexivity).
  destruct l as [|[]]; simpl in *.
  - split; [by left |]. split; [split; [done | lra] |]. lra.
  - destruct (Z.even m).
    + split; [by left |]. split; [done |]. lra.
    + split; [by right |]. split; [done |]. lra.
  - split; [by left |]. split; [done |]. lra.
  - split; [by right |]. split; [done |]. lra.
Qed.

Lemma fexp64 (e : Z) : fexp prec emax e = Z.max (e - 53) (-1074).
Proof. reflexivity. Qed.

Lemma pow2_le_inv (a b : Z) : (pow2 a <= pow2 b)%Q → a ≤ b.
Proof.
  intros Hle. destruct (Z_le_gt_dec a b) as [|Hgt]; [done |].
  assert (pow2 (b + 1) <= pow2 a)%Q as H1 by (apply pow2_le; lia).
  rewrite pow2_add in H1. change (pow2 1) with 2%Q in H1.
  pose proof (pow2_pos b). lra.
Qed.

Lemma pow2_cancel (n : Z) : (pow2 (- n) * pow2 n == 1)%Q.
Proof. rewrite <- pow2_add. replace (- n + n) with 0 by lia. reflexivity. Qed.

Lemma loc_ok_range (l : location) (f : Q) : loc_ok l f → (0 <= f ∧ f < 1)%Q.
Proof. destruct l as [|[]]; simpl; lra. Qed.

Lemma loc_of_record_of_loc (m : Z) (l : location) :
  loc_of_shr_record (shr_record_of_loc m l) = l
  ∧ shr_m (shr_record_of_loc m l) = m.
Proof. by destruct l as [|[]]. Qed.

Lemma represents_record_of_loc (m : Z) (l : location) (y : Q) :
  0 ≤ m → loc_ok l (y - inject_Z m)%Q → represents (shr_record_of_loc m l) y.
Proof.
  intros Hm Hl. destruct (loc_of_record_of_loc m l) as [E1 E2].
  unfold represents. by rewrite E1, E2.
Qed.

(** the second shift of [binary_round_aux], after a mantissa in canonical
    position was rounded: it moves by one bit at most, and loses nothing *)
Lemma second_shift (m1 e1 m2 : Z) :
  (m1 = 0 ∧ e1 = -1074) ∨ (0 < m1 ∧ fexp prec emax (Zdigits2 m1 + e1) = e1) →
  m2 = m1 ∨ m2 = m1 + 1 →
  let n2 := fexp prec emax (Zdigits2 m2 + e1) - e1 in
  (n2 = 0 ∨ (n2 = 1 ∧ m2 = 2 ^ 53)).
Proof.
  intros HC Hm2 n2. subst n2. rewrite fexp64.
  destruct HC as [[-> ->] | [Hm1 Hc]].
  - destruct Hm2 as [-> | ->]; simpl; lia.
  - rewrite fexp64 in Hc.
    destruct Hm2 as [-> | ->]; [lia |].
    destruct (Zdigits2_succ m1 Hm1) as [-> | [Hp ->]]; [lia |].
    destruct (Z_le_gt_dec 53 (Zdigits2 m1)).
    + right. assert (Zdigits2 m1 = 53) as Hd by lia.
      rewrite Hp, Hd. lia.
    + left. lia.
Qed.

(** The shape of a rounding: the number [y * 2^ex], located by [mx] and
    [lx], is first brought to the exponent [e1], where it is [y1]; [m2] is
    the nearest integer to [y1]; the result has the value [m2 * 2^e1]. *)
Lemma round_aux_shape (mx ex : Z) (lx : location) (y : Q) :
  0 ≤ mx →
  loc_ok lx (y - inject_Z mx)%Q →
  let n1 := fexp prec emax (Zdigits2 mx + ex) - ex in
  lx = loc_Exact ∨ 0 ≤ n1 →
  ∃ (m2 e1 m3 e3 : Z) (y1 : Q),
    binary_round_aux prec emax false mx ex lx = packed m3 e3
    ∧ 0 ≤ m3
    ∧ (inject_Z m3 * pow2 e3 == inject_Z m2 * pow2 e1)%Q
    ∧ (y * pow2 ex == y1 * pow2 e1)%Q
    ∧ (0 <= y1)%Q
    ∧ (inject_Z m2 - y1 <= 1 # 2)%Q
    ∧ (y1 - inject_Z m2 <= 1 # 2)%Q
    ∧ (e1 = -1074 ∨ (inject_Z (2 ^ 52) <= y1)%Q ∨ (inject_Z m2 == y1)%Q)
    ∧ (0 ≤ n1 → 0 < m3 → fexp prec emax (Zdigits2 m3 + e3) = e3)
    ∧ (lx = loc_Exact → n1 ≤ 0 → (inject_Z m2 == y1)%Q).
Proof.
  intros Hmx Hl n1 Hpre.
  destruct (loc_ok_range _ _ Hl) as [Hf0 Hf1].
  assert (0 <= inject_Z mx)%Q as HmxQ.
  { change 0%Q with (inject_Z 0). by rewrite <- Zle_Qle. }
  destruct (Z_lt_le_dec n1 0) as [Hneg | Hpos].
  - (* no shift: the location is exact *)
    destruct Hpre as [-> | ?]; [| lia]. simpl in Hl.
    exists mx, ex, mx, ex, y.
    split.
    { unfold binary_round_aux, shr_fexp. fold n1.
      destruct n1 as [|p|p] eqn:En1; try lia. simpl.
      fold n1. rewrite En1. simpl. reflexivity. }
    split; [done |]. split; [reflexivity |]. split; [reflexivity |].
    split; [lra |]. split; [lra |]. split; [lra |].
    split; [right; right; lra |]. split; [lia |]. intros _ _. lra.
  - (* shifted, or already in canonical position *)
    clear Hpre.
    pose proof (represents_record_of_loc mx lx y Hmx Hl) as Hrep.
    pose proof (shr_represents _ ex n1 y Hrep) as H1. cbv zeta in H1.
    rewrite Z.max_l in H1 by lia.
    unfold binary_round_aux, shr_fexp. fold n1.
    destruct (shr (shr_record_of_loc mx lx) ex n1) as [mrs1 e1].
    simpl fst in H1; simpl snd in H1.
    destruct H1 as ([Hm1 Hl1] & Em1 & Ee1).
    destruct (loc_of_record_of_loc mx lx) as [_ Emx]. rewrite Emx in Em1.
    set (m1 := shr_m mrs1) in *. set (l1 := loc_of_shr_record mrs1) in *.
    set (y1 := (y * pow2 (- n1))%Q) in *.
    destruct (loc_ok_range _ _ Hl1) as [Hg0 Hg1].
    assert (0 <= inject_Z m1)%Q as Hm1Q.
    { change 0%Q with (inject_Z 0). by rewrite <- Zle_Qle. }
    destruct (round_nearest_even_spec m1 l1 y1 Hm1 Hl1)
      as (Hm2 & Hex & Hup & Hdn).
    set (m2 := round_nearest_even m1 l1) in *.
    assert (0 ≤ m2) as Hm2pos by lia.
    (* the mantissa is now in canonical position *)
    assert ((m1 = 0 ∧ e1 = -1074)
            ∨ (0 < m1 ∧ fexp prec emax (Zdigits2 m1 + e1) = e1)) as HC.
    { destruct (Z_lt_le_dec n1 (Zdigits2 mx)) as [Hlt | Hge].
      - right. assert (0 < mx) as Hmx'.
        { destruct (Z.eq_dec mx 0) as [-> |]; [simpl in Hlt; lia | lia]. }
        destruct (Zdigits2_shift mx n1 Hmx' ltac:(lia)) as [Hp Hd].
        rewrite <- Em1 in Hp, Hd. split; [done |].
        rewrite Hd, Ee1.
        replace (Zdigits2 mx - n1 + (ex + n1)) with (Zdigits2 mx + ex) by lia.
        unfold n1. lia.
      - left. split.
        + rewrite Em1. by apply Zdigits2_shift_out.
        + pose proof (Zdigits2_nonneg mx). subst n1.
          rewrite fexp64 in *. lia. }
    destruct (second_shift m1 e1 m2 HC Hm2) as [Hn2 | [Hn2 Hbig]];
      cbv zeta in Hn2.
    + (* no second shift *)
      exists m2, e1, m2, e1, y1.
      split. { rewrite Hn2. simpl. reflexivity. }
      split; [done |]. split; [reflexivity |].
      split.
      { unfold y1. rewrite Ee1, pow2_add.
        rewrite <- (Qmult_1_r (y * pow2 ex)) at 1.
        rewrite <- (pow2_cancel n1). ring. }
      split; [lra |]. split; [done |]. split; [done |].
      split.
      { destruct HC as [[_ ->] | [Hp Hc]]; [by left |].
        rewrite fexp64 in Hc.
        destruct (Z_le_gt_dec e1 (-1074)); [left; lia |].
        right; left. assert (Zdigits2 m1 = 53) as Hd by lia.
        destruct (Zdigits2_bounds m1 Hp) as [Hlo _]. rewrite Hd in Hlo.
        assert (inject_Z (2 ^ 52) <= inject_Z m1)%Q
          by (rewrite <- Zle_Qle; exact Hlo).
        lra. }
      split; [intros _ _; lia |].
      intros -> Hn. assert (n1 = 0) as Hz by lia.
      assert (l1 = loc_Exact) as Hl1e.
      { subst l1. revert Hl Hl1. unfold y1. rewrite Hz.
        change (pow2 (- 0)) with 1%Q. intros Hl Hl1.
        rewrite Em1, Hz, Z.div_1_r in *. simpl in Hl.
        destruct (loc_of_shr_record mrs1) as [|[]]; simpl in Hl1;
          first [reflexivity | exfalso; lra]. }
      destruct (Hex Hl1e) as [Hmm Hy]. rewrite Hmm. lra.
    + (* the rounding carried into the next binade *)
      exists m2, e1, (2 ^ 52), (e1 + 1), y1.
      split. { rewrite Hn2, Hbig. simpl. reflexivity. }
      split; [lia |].
      split. { rewrite Hbig, pow2_add. change (pow2 1) with 2%Q.
               change (inject_Z (2 ^ 53)) with (inject_Z (2 ^ 52) * 2)%Q. ring. }
      split.
      { unfold y1. rewrite Ee1, pow2_add.
        rewrite <- (Qmult_1_r (y * pow2 ex)) at 1.
        rewrite <- (pow2_cancel n1). ring. }
      split; [lra |]. split; [done |]. split; [done |].
      split.
      { right; left.
        assert (inject_Z m2 == inject_Z (2 ^ 52) * 2)%Q as Hq by by rewrite Hbig.
        assert (1 <= inject_Z (2 ^ 52))%Q by done. lra. }
      split.
      { intros _ _. rewrite fexp64 in *. change (Zdigits2 (2 ^ 52)) with 53. lia. }
      intros -> Hn. assert (n1 = 0) as Hz by lia.
      assert (l1 = loc_Exact) as Hl1e.
      { subst l1. revert Hl Hl1. unfold y1. rewrite Hz.
        change (pow2 (- 0)) with 1%Q. intros Hl Hl1.
        rewrite Em1, Hz, Z.div_1_r in *. simpl in Hl.
        destruct (loc_of_shr_record mrs1) as [|[]]; simpl in Hl1;
          first [reflexivity | exfalso; lra]. }
      destruct (Hex Hl1e) as [Hmm Hy]. rewrite Hmm. lra.
Qed.

Lemma u64_value : (u64 == 1 # 9007199254740992)%Q.
Proof. reflexivity. Qed.

Lemma eta64_half : (eta64 == (1 # 2) * pow2 (-1074))%Q.
Proof.
  unfold eta64. replace (-1075) with (-1074 + -1) by lia.
  rewrite pow2_add. change (pow2 (-1)) with (1 # 2)%Q. ring.
Qed.

Lemma eta64_small : (0 < eta64 ∧ eta64 <= 1)%Q.
Proof.
  split; [apply pow2_pos |]. change 1%Q with (pow2 0). apply pow2_le. lia.
Qed.

Lemma inject_Z_pos_ge_1 (p : positive) : (1 <= inject_Z (Z.pos p))%Q.
Proof. change 1%Q with (inject_Z 1). rewrite <- Zle_Qle. lia. Qed.

Lemma round_aux_value (mx ex : Z) (lx : location) (y : Q) :
  0 ≤ mx →
  loc_ok lx (y - inject_Z mx)%Q →
  let n1 := fexp prec emax (Zdigits2 mx + ex) - ex in
  lx = loc_Exact ∨ 0 ≤ n1 →
  (y * pow2 ex <= pow2 900)%Q →
  let r := binary_round_aux prec emax false mx ex lx in
  ∃ q, SF2Q r = Some q
       ∧ (0 <= q)%Q
       ∧ (q - y * pow2 ex <= u64 * (y * pow2 ex) + eta64)%Q
       ∧ (y * pow2 ex - q <= u64 * (y * pow2 ex) + eta64)%Q
       ∧ (lx = loc_Exact → n1 ≤ 0 → q == y * pow2 ex)%Q
       ∧ (0 ≤ n1 → valid_binary r = true).
Proof.
  intros Hmx Hl n1 Hpre Hbig r. subst r.
  destruct (round_aux_shape mx ex lx y Hmx Hl Hpre)
    as (m2 & e1 & m3 & e3 & y1 & -> & Hm3 & HV & Hx & Hy1 & Hup & Hdn
        & Hcase & Hcanon & Hexact).
  fold n1 in Hcanon, Hexact.
  pose proof (pow2_pos e1) as HP. pose proof (pow2_pos e3) as HP3.
  pose proof eta64_small as [Heta0 Heta1]. pose proof eta64_half as Heta.
  pose proof u64_value as Hu.
  set (x := (y * pow2 ex)%Q) in *.
  set (v := (inject_Z m3 * pow2 e3)%Q) in *.
  assert (0 <= x)%Q as Hx0 by (rewrite Hx; nra).
  assert (v - x <= u64 * x + eta64 ∧ x - v <= u64 * x + eta64)%Q as [Hb1 Hb2].
  { rewrite HV, Hx.
    assert ((inject_Z m2 - y1) * pow2 e1 <= (1 # 2) * pow2 e1)%Q by nra.
    assert ((y1 - inject_Z m2) * pow2 e1 <= (1 # 2) * pow2 e1)%Q by nra.
    destruct Hcase as [-> | [Hbig1 | Heq]].
    - nra.
    - change (inject_Z (2 ^ 52)) with (4503599627370496 # 1)%Q in Hbig1.
      assert ((4503599627370496 # 1) * pow2 e1 <= y1 * pow2 e1)%Q by nra.
      rewrite Hu. lra.
    - rewrite Heq. rewrite Hu. nra. }
  assert (0 <= v)%Q as Hv0.
  { unfold v. assert (0 <= inject_Z m3)%Q
      by (change 0%Q with (inject_Z 0); by rewrite <- Zle_Qle). nra. }
  destruct m3 as [|p|p]; [| | lia].
  - (* zero *)
    exists 0%Q. simpl. split; [done |]. split; [lra |].
    assert (v == 0)%Q as Hv by (unfold v; ring).
    split; [lra |]. split; [lra |].
    split. { intros Hle Hn. rewrite <- Hv, HV, Hx, (Hexact Hle Hn). reflexivity. }
    done.
  - (* a number: it does not overflow *)
    assert (e3 ≤ 902) as He3.
    { apply pow2_le_inv.
      assert (pow2 902 == 4 * pow2 900)%Q as ->.
      { replace 902 with (2 + 900) by lia. rewrite pow2_add. reflexivity. }
      assert (1 <= pow2 900)%Q
        by (change 1%Q with (pow2 0); apply pow2_le; lia).
      pose proof (inject_Z_pos_ge_1 p).
      assert (pow2 e3 <= v)%Q by (unfold v; nra).
      rewrite Hu in Hb1. lra. }
    assert ((e3 <=? emax - prec) = true) as Hleb.
    { apply Z.leb_le. change (emax - prec) with 971. lia. }
    exists v. unfold packed. rewrite Hleb. simpl.
    split; [done |]. split; [done |]. split; [done |]. split; [done |].
    split. { intros Hle Hn. rewrite Hx, <- (Hexact Hle Hn). exact HV. }
    intros Hn. unfold bounded, canonical_mantissa. rewrite Hleb.
    specialize (Hcanon Hn ltac:(lia)). simpl in Hcanon. rewrite Hcanon.
    by rewrite Z.eqb_refl.
Qed.

(** *** Aligning a mantissa to a smaller exponent *)

Lemma iter_xO (m d : positive) :
  Z.pos (Pos.iter xO m d) = Z.pos m * 2 ^ Z.pos d.
Proof.
  induction d as [|d IH] using Pos.peano_ind.
  - simpl. lia.
  - rewrite Pos.iter_succ, Pos2Z.inj_xO, IH, Pos2Z.inj_succ, Z.pow_succ_r by lia.
    lia.
Qed.

Lemma shl_align_spec (m : positive) (e t : Z) :
  let k := Z.max (e - t) 0 in
  shl_align m e t = (Z.to_pos (Z.pos m * 2 ^ k), e - k).
Proof.
  unfold shl_align. destruct (t - e) as [|d|d] eqn:E.
  - rewrite Z.max_r by lia. rewrite Z.pow_0_r, Z.mul_1_r. simpl.
    f_equal. lia.
  - rewrite Z.max_r by lia. rewrite Z.pow_0_r, Z.mul_1_r. simpl.
    f_equal. lia.
  - assert (e - t = Z.pos d) as -> by lia. rewrite Z.max_l by lia.
    f_equal; [| lia]. rewrite <- iter_xO. done.
Qed.

Lemma Zdigits2_mul_pow2 (m k : Z) :
  0 < m → 0 ≤ k → Zdigits2 (m * 2 ^ k) = Zdigits2 m + k.
Proof.
  intros Hm Hk. destruct (Zdigits2_bounds m Hm) as [Hlo Hhi].
  pose proof (Zdigits2_pos m Hm).
  assert (0 < 2 ^ k) by (apply Z.pow_pos_nonneg; lia).
  apply Zdigits2_unique; [| nia].
  replace (Zdigits2 m + k - 1) with (Zdigits2 m - 1 + k) by lia.
  rewrite !Z.pow_add_r by lia. nia.
Qed.

Lemma inject_Z_pow2 (k : Z) : 0 ≤ k → (inject_Z (2 ^ k) == pow2 k)%Q.
Proof. intros. by rewrite pow2_Z. Qed.

(** *** Normalising an exact number *)

Lemma binary_round_value (m : positive) (e : Z) :
  (inject_Z (Z.pos m) * pow2 e <= pow2 900)%Q →
  let x := (inject_Z (Z.pos m) * pow2 e)%Q in
  let r := binary_round prec emax false m e in
  ∃ q, SF2Q r = Some q
       ∧ (0 <= q)%Q
       ∧ (q - x <= u64 * x + eta64)%Q
       ∧ (x - q <= u64 * x + eta64)%Q
       ∧ (fexp prec emax (Zdigits2 (Z.pos m) + e) ≤ e → q == x)%Q
       ∧ valid_binary r = true.
Proof.
  intros Hbig x r. subst r. unfold binary_round.
  change (Z.pos (digits2_pos m)) with (Zdigits2 (Z.pos m)).
  set (t := fexp prec emax (Zdigits2 (Z.pos m) + e)).
  rewrite shl_align_spec. set (k := Z.max (e - t) 0).
  assert (0 ≤ k) as Hk by lia.
  assert (0 < 2 ^ k) as Hpk by (apply Z.pow_pos_nonneg; lia).
  set (mz := Z.pos m * 2 ^ k).
  assert (0 < mz) as Hmz by (unfold mz; nia).
  rewrite Z2Pos.id by done.
  assert (inject_Z mz * pow2 (e - k) == x)%Q as Hval.
  { unfold mz, x. rewrite inject_Z_mult, (inject_Z_pow2 k Hk).
    replace e with ((e - k) + k) at 2 by lia. rewrite (pow2_add (e - k) k).
    ring. }
  assert (0 ≤ fexp prec emax (Zdigits2 mz + (e - k)) - (e - k)) as Hn1.
  { unfold mz. rewrite Zdigits2_mul_pow2 by lia.
    replace (Zdigits2 (Z.pos m) + k + (e - k)) with (Zdigits2 (Z.pos m) + e)
      by lia.
    fold t. lia. }
  destruct (round_aux_value mz (e - k) loc_Exact (inject_Z mz))
    as (q & Hq & Hq0 & Hb1 & Hb2 & Hex & Hvalid).
  { lia. } { simpl. ring. } { by left. } { by rewrite Hval. }
  exists q. rewrite Hval in Hb1, Hb2, Hex.
  split; [done |]. split; [done |]. split; [done |]. split; [done |].
  split; [| by apply Hvalid].
  intros Ht. apply Hex; [done |].
  unfold mz. rewrite Zdigits2_mul_pow2 by lia.
  replace (Zdigits2 (Z.pos m) + k + (e - k)) with (Zdigits2 (Z.pos m) + e)
    by lia.
  fold t. lia.
Qed.

(** *** The three operations of the running average, on non-negative
    numbers *)

Lemma SF2Q_nonneg (x : spec_float) (q : Q) :
  SF2Q x = Some q → (0 <= q)%Q →
  (∃ s, x = S754_zero s ∧ q = 0%Q)
  ∨ (∃ m e, x = S754_finite false m e ∧ q = (inject_Z (Z.pos m) * pow2 e)%Q).
Proof.
  destruct x as [s| | |[] m e]; simpl; try done.
  - intros [= <-] _. left. by eexists.
  - intros [= <-] Hq. exfalso.
    pose proof (pow2_pos e). pose proof (inject_Z_pos_ge_1 m). nra.
  - intros [= <-] _. right. by eexists _, _.
Qed.

Lemma rounds_to_zero (s : bool) (x : Q) : (x == 0)%Q → rounds_to (S754_zero s) x.
Proof.
  intros Hx. exists 0%Q. pose proof eta64_small. pose proof u64_value as Hu.
  simpl. split; [done |]. rewrite Hx, Hu. repeat split; lra.
Qed.

Lemma rounds_to_exact (r : spec_float) (q x : Q) :
  SF2Q r = Some q → (0 <= q)%Q → (q == x)%Q → rounds_to r x.
Proof.
  intros Hr Hq Hx. exists q. pose proof eta64_small. pose proof u64_value as Hu.
  split; [done |]. rewrite <- Hx, Hu. repeat split; lra.
Qed.

Lemma SFmul_value (x y : spec_float) (qx qy : Q) :
  SF2Q x = Some qx → SF2Q y = Some qy →
  (0 <= qx)%Q → (0 <= qy)%Q → (qx * qy <= pow2 900)%Q →
  rounds_to (SFmul prec emax x y) (qx * qy).
Proof.
  intros Hx Hy Hqx Hqy Hbig.
  destruct (SF2Q_nonneg x qx Hx Hqx) as [(sx & -> & ->) | (mx & ex & -> & ->)],
           (SF2Q_nonneg y qy Hy Hqy) as [(sy & -> & ->) | (my & ey & -> & ->)];
    simpl; try (apply rounds_to_zero; ring).
  assert (inject_Z (Z.pos (mx * my)) * pow2 (ex + ey)
          == inject_Z (Z.pos mx) * pow2 ex * (inject_Z (Z.pos my) * pow2 ey))%Q
    as Hval.
  { rewrite Pos2Z.inj_mul, inject_Z_mult, pow2_add. ring. }
  destruct (round_aux_value (Z.pos (mx * my)) (ex + ey) loc_Exact
              (inject_Z (Z.pos (mx * my))))
    as (q & Hq & Hq0 & Hb1 & Hb2 & _).
  { lia. } { simpl. ring. } { by left. } { by rewrite Hval. }
  exists q. rewrite Hval in Hb1, Hb2. done.
Qed.

Lemma shl_align_value (m : positive) (e t : Z) :
  t ≤ e →
  (shl_align m e t).2 = t
  ∧ (inject_Z (Z.pos (shl_align m e t).1) * pow2 t
     == inject_Z (Z.pos m) * pow2 e)%Q.
Proof.
  intros Hte. rewrite shl_align_spec. cbv zeta. rewrite Z.max_l by lia. simpl.
  split; [lia |].
  assert (0 < 2 ^ (e - t)) by (apply Z.pow_pos_nonneg; lia).
  rewrite Z2Pos.id by nia.
  rewrite inject_Z_mult, inject_Z_pow2 by lia.
  replace e with (e - t + t) at 2 by lia. rewrite (pow2_add (e - t) t). ring.
Qed.

Lemma SFadd_value (x y : spec_float) (qx qy : Q) :
  SF2Q x = Some qx → SF2Q y = Some qy →
  (0 <= qx)%Q → (0 <= qy)%Q → (qx + qy <= pow2 900)%Q →
  rounds_to (SFadd prec emax x y) (qx + qy).
Proof.
  intros Hx Hy Hqx Hqy Hbig.
  destruct (SF2Q_nonneg x qx Hx Hqx) as [(sx & -> & ->) | (mx & ex & -> & ->)],
           (SF2Q_nonneg y qy Hy Hqy) as [(sy & -> & ->) | (my & ey & -> & ->)].
  - simpl. destruct sx, sy; apply rounds_to_zero; ring.
  - simpl. eapply rounds_to_exact; [reflexivity | done | ring].
  - simpl. eapply rounds_to_exact; [reflexivity | done | ring].
  - unfold SFadd. cbv zeta. set (ez := Z.min ex ey).
    destruct (shl_align_value mx ex ez ltac:(lia)) as [_ Hvx].
    destruct (shl_align_value my ey ez ltac:(lia)) as [_ Hvy].
    set (a := (shl_align mx ex ez).1) in *.
    set (b := (shl_align my ey ez).1) in *.
    change (cond_Zopp false (Z.pos a) + cond_Zopp false (Z.pos b))
      with (Z.pos (a + b)).
    unfold binary_normalize.
    assert (inject_Z (Z.pos (a + b)) * pow2 ez
            == inject_Z (Z.pos mx) * pow2 ex + inject_Z (Z.pos my) * pow2 ey)%Q
      as Hval.
    { rewrite Pos2Z.inj_add, inject_Z_plus, <- Hvx, <- Hvy. ring. }
    destruct (binary_round_value (a + b) ez) as (q & Hq & Hq0 & Hb1 & Hb2 & _).
    { by rewrite Hval. }
    exists q. rewrite Hval in Hb1, Hb2. done.
Qed.

(** where the remainder [k] of a division by [nb] puts the quotient *)
Lemma new_location_ok (nb k : Z) :
  0 < nb → 0 ≤ k < nb →
  loc_ok (new_location nb k) (inject_Z k / inject_Z nb)%Q.
Proof.
  intros Hnb Hk.
  assert (0 < inject_Z nb)%Q as HnbQ
    by (change 0%Q with (inject_Z 0); by rewrite <- Zlt_Qlt).
  set (f := (inject_Z k / inject_Z nb)%Q).
  assert (f * inject_Z nb == inject_Z k)%Q as Hf.
  { unfold f. field. lra. }
  assert (∀ a b : Z, a < b → (inject_Z a < inject_Z b)%Q) as Hlt
    by (intros; by rewrite <- Zlt_Qlt).
  assert (inject_Z (2 * k) == 2 * inject_Z k)%Q as H2k
    by (rewrite inject_Z_mult; reflexivity).
  assert (inject_Z (2 * k + 1) == 2 * inject_Z k + 1)%Q as H2k1
    by (rewrite inject_Z_plus, inject_Z_mult; reflexivity).
  assert (0 <= f)%Q as Hf0.
  { assert (0 <= inject_Z k)%Q
      by (change 0%Q with (inject_Z 0); rewrite <- Zle_Qle; lia). nra. }
  assert (f < 1)%Q as Hf1.
  { pose proof (Hlt k nb ltac:(lia)). nra. }
  assert (k ≠ 0 → (0 < f)%Q) as Hfpos.
  { intros Hk0. pose proof (Hlt 0 k ltac:(lia)) as H0.
    change (inject_Z 0) with 0%Q in H0. nra. }
  assert (k = 0 → (f == 0)%Q) as Hfz.
  { intros ->. unfold f. field. lra. }
  unfold new_location.
  destruct (Z.even nb) eqn:Heven.
  - unfold new_location_even.
    destruct (Z.eqb_spec k 0) as [Hk0 | Hk0]; [by apply Hfz |].
    specialize (Hfpos Hk0).
    destruct (Z.compare_spec (2 * k) nb) as [Heq | Hl | Hg]; simpl.
    + assert (2 * inject_Z k == inject_Z nb)%Q by (by rewrite <- H2k, Heq).
      apply Qle_antisym; nra.
    + pose proof (Hlt _ _ Hl). split; nra.
    + pose proof (Hlt _ _ Hg). split; nra.
  - unfold new_location_odd.
    destruct (Z.eqb_spec k 0) as [Hk0 | Hk0]; [by apply Hfz |].
    specialize (Hfpos Hk0).
    assert (2 * k ≠ nb) as Hodd.
    { intros <-. rewrite Z.even_mul in Heven. done. }
    destruct (Z.compare_spec (2 * k + 1) nb) as [Heq | Hl | Hg]; simpl.
    + pose proof (Hlt (2 * k) nb ltac:(lia)). split; nra.
    + pose proof (Hlt (2 * k) nb ltac:(lia)). split; nra.
    + pose proof (Hlt nb (2 * k) ltac:(lia)). split; nra.
Qed.

Lemma pow2_sub (a b : Z) : (pow2 (a - b) == pow2 a / pow2 b)%Q.
Proof.
  pose proof (pow2_pos b).
  replace a with ((a - b) + b) at 2 by lia. rewrite (pow2_add (a - b) b).
  field. lra.
Qed.

Lemma Zdigits2_ge (m k : Z) : 0 ≤ k → 2 ^ k ≤ m → k + 1 ≤ Zdigits2 m.
Proof.
  intros Hk Hm. assert (0 < 2 ^ k) by (apply Z.pow_pos_nonneg; lia).
  destruct (Zdigits2_bounds m ltac:(lia)) as [_ Hhi].
  destruct (Z_le_gt_dec (k + 1) (Zdigits2 m)) as [|Hgt]; [done |].
  assert (2 ^ Zdigits2 m ≤ 2 ^ k) by (apply Z.pow_le_mono_r; lia). lia.
Qed.

Lemma SFdiv_value (x y : spec_float) (qx qy : Q) :
  SF2Q x = Some qx → SF2Q y = Some qy →
  (0 <= qx)%Q → (0 < qy)%Q → (qx / qy <= pow2 900)%Q →
  rounds_to (SFdiv prec emax x y) (qx / qy).
Proof.
  intros Hx Hy Hqx Hqy Hbig.
  destruct (SF2Q_nonneg y qy Hy ltac:(lra))
    as [(sy & -> & ->) | (my & ey & -> & ->)]; [lra |].
  destruct (SF2Q_nonneg x qx Hx Hqx) as [(sx & -> & ->) | (mx & ex & -> & ->)].
  { simpl. apply rounds_to_zero. unfold Qdiv. ring. }
  unfold SFdiv, SFdiv_core_binary. cbv zeta.
  set (d1 := Zdigits2 (Z.pos mx)). set (d2 := Zdigits2 (Z.pos my)).
  set (e' := Z.min (fexp prec emax (d1 + ex - (d2 + ey))) (ex - ey)).
  set (s := ex - ey - e').
  assert (0 ≤ s) as Hs by (unfold s, e'; lia).
  assert (0 < 2 ^ s) as Hps by (apply Z.pow_pos_nonneg; lia).
  set (m' := match s with
             | 0 => Z.pos mx
             | Z.pos _ => Z.shiftl (Z.pos mx) s
             | Z.neg _ => 0
             end).
  assert (m' = Z.pos mx * 2 ^ s) as Em'.
  { unfold m'. destruct s as [|p|p] eqn:Es; [lia | | lia].
    by rewrite Z.shiftl_mul_pow2 by lia. }
  pose proof (Z_div_mod m' (Z.pos my) ltac:(lia)) as Hdiv.
  destruct (Z.div_eucl m' (Z.pos my)) as [q r]. destruct Hdiv as [Hqr Hr].
  assert (0 ≤ q) as Hq0 by nia.
  pose proof (pow2_pos ex) as HPx. pose proof (pow2_pos ey) as HPy.
  pose proof (pow2_pos e') as HPe.
  pose proof (inject_Z_pos_ge_1 mx) as Hmx1.
  pose proof (inject_Z_pos_ge_1 my) as Hmy1.
  set (y := (inject_Z m' / inject_Z (Z.pos my))%Q).
  assert (y - inject_Z q == inject_Z r / inject_Z (Z.pos my))%Q as Hfrac.
  { unfold y. rewrite Hqr, inject_Z_plus, inject_Z_mult. field. lra. }
  assert (y * pow2 e'
          == inject_Z (Z.pos mx) * pow2 ex / (inject_Z (Z.pos my) * pow2 ey))%Q
    as Hval.
  { unfold y. rewrite Em', inject_Z_mult, inject_Z_pow2 by lia.
    assert (pow2 s * pow2 e' == pow2 ex / pow2 ey)%Q as Hp.
    { rewrite <- pow2_add, <- pow2_sub. unfold s.
      replace (ex - ey - e' + e') with (ex - ey) by lia. reflexivity. }
    transitivity (inject_Z (Z.pos mx) / inject_Z (Z.pos my)
                  * (pow2 s * pow2 e'))%Q; [field; lra |].
    rewrite Hp. field. split; lra. }
  (* the quotient has digits enough *)
  assert (0 ≤ fexp prec emax (Zdigits2 q + e') - e') as Hn1.
  { rewrite fexp64. destruct (Z_le_gt_dec e' (-1074)) as [|Hgt]; [lia |].
    assert (53 - d1 + d2 ≤ s) as Hs'.
    { unfold s, e' in *. rewrite fexp64 in *. lia. }
    destruct (Zdigits2_bounds (Z.pos mx) ltac:(lia)) as [Hlo1 _].
    destruct (Zdigits2_bounds (Z.pos my) ltac:(lia)) as [_ Hhi2].
    fold d1 in Hlo1. fold d2 in Hhi2.
    pose proof (Zdigits2_pos (Z.pos mx) ltac:(lia)) as Hd1. fold d1 in Hd1.
    pose proof (Zdigits2_pos (Z.pos my) ltac:(lia)) as Hd2. fold d2 in Hd2.
    assert (2 ^ 52 * 2 ^ d2 ≤ 2 ^ (d1 - 1) * 2 ^ s) as Hpw.
    { rewrite <- !Z.pow_add_r by lia. apply Z.pow_le_mono_r; lia. }
    assert (2 ^ 52 ≤ q) as Hq52 by nia.
    pose proof (Zdigits2_ge q 52 ltac:(lia) Hq52). lia. }
  destruct (round_aux_value q e' (new_location (Z.pos my) r) y)
    as (v & Hv & Hv0 & Hb1 & Hb2 & _).
  { done. }
  { eapply loc_ok_compat; [symmetry; exact Hfrac |].
    apply new_location_ok; lia. }
  { by right. }
  { by rewrite Hval. }
  exists v. rewrite Hval in Hb1, Hb2. done.
Qed.

Lemma rounds_to_compat (r : spec_float) (x x' : Q) :
  (x == x')%Q → rounds_to r x → rounds_to r x'.
Proof.
  intros Hx (q & Hq & Hq0 & Hb1 & Hb2). exists q. rewrite <- Hx. done.
Qed.

Lemma value_of_int (k : Z) :
  0 ≤ k < 2 ^ 53 →
  ∃ q, value (float_of_int k) = Some q ∧ (q == inject_Z k)%Q.
Proof.
  intros Hk. unfold value, float_of_int.
  destruct k as [|p|p]; [| | lia].
  - exists 0%Q. rewrite Prim2SF_SF2Prim by reflexivity. done.
  - simpl binary_normalize.
    assert (inject_Z (Z.pos p) * pow2 0 <= pow2 900)%Q as Hbig.
    { change (pow2 0) with 1%Q. rewrite Qmult_1_r.
      apply Qle_trans with (inject_Z (2 ^ 53)); [rewrite <- Zle_Qle; lia |].
      rewrite inject_Z_pow2 by lia. apply pow2_le. lia. }
    destruct (binary_round_value p 0 Hbig)
      as (q & Hq & _ & _ & _ & Hex & Hvalid).
    exists q. rewrite Prim2SF_SF2Prim by exact Hvalid. split; [exact Hq |].
    rewrite Hex.
    + change (pow2 0) with 1%Q. ring.
    + rewrite fexp64.
      destruct (Zdigits2_bounds (Z.pos p) ltac:(lia)) as [Hlo _].
      destruct (Z_le_gt_dec (Zdigits2 (Z.pos p)) 53) as [|Hgt]; [lia |].
      assert (2 ^ 53 ≤ 2 ^ (Zdigits2 (Z.pos p) - 1))
        by (apply Z.pow_le_mono_r; lia).
      lia.
Qed.

Lemma value_mul (a b : float) (qa qb : Q) :
  value a = Some qa → value b = Some qb →
  (0 <= qa)%Q → (0 <= qb)%Q → (qa * qb <= pow2 900)%Q →
  rounds_to (Prim2SF (a * b)) (qa * qb).
Proof. intros. rewrite mul_spec. by apply SFmul_value. Qed.

Lemma value_add (a b : float) (qa qb : Q) :
  value a = Some qa → value b = Some qb →
  (0 <= qa)%Q → (0 <= qb)%Q → (qa + qb <= pow2 900)%Q →
  rounds_to (Prim2SF (a + b)) (qa + qb).
Proof. intros. rewrite add_spec. by apply SFadd_value. Qed.

Lemma value_div (a b : float) (qa qb : Q) :
  value a = Some qa → value b = Some qb →
  (0 <= qa)%Q → (0 < qb)%Q → (qa / qb <= pow2 900)%Q →
  rounds_to (Prim2SF (a / b)) (qa / qb).
Proof. intros. rewrite div_spec. by apply SFdiv_value. Qed.

(** *** One step of the running average *)

Lemma step_error (qa qc K qp qs qa' : Q) :
  (0 <= qa <= 2)%Q → (0 <= qc <= 1)%Q →
  (0 <= K)%Q → (K + 1 <= inject_Z (2 ^ 50))%Q →
  (0 <= qp)%Q → (0 <= qs)%Q →
  (qp - qa * K <= u64 * (qa * K) + eta64)%Q →
  (qa * K - qp <= u64 * (qa * K) + eta64)%Q →
  (qs - (qp + qc) <= u64 * (qp + qc) + eta64)%Q →
  (qp + qc - qs <= u64 * (qp + qc) + eta64)%Q →
  (qa' - qs / (K + 1) <= u64 * (qs / (K + 1)) + eta64)%Q →
  (qs / (K + 1) - qa' <= u64 * (qs / (K + 1)) + eta64)%Q →
  ((K + 1) * qa' - (qa * K + qc) <= tol64 * (K + 1)
   ∧ (qa * K + qc) - (K + 1) * qa' <= tol64 * (K + 1))%Q.
Proof.
  intros Hqa Hqc HK HK1 Hp0 Hs0 Hp1 Hp2 Hs1 Hs2 Ha1 Ha2.
  assert (eta64 <= pow2 (-60))%Q as Heta by (apply pow2_le; lia).
  pose proof (proj1 eta64_small) as Heta0.
  change (pow2 (-60)) with (1 # 1152921504606846976)%Q in Heta.
  assert (tol64 == 1 # 1125899906842624)%Q as -> by reflexivity.
  rewrite u64_value in *.
  change (inject_Z (2 ^ 50)) with (1125899906842624 # 1)%Q in HK1.
  set (t := (qa * K)%Q) in *.
  assert (0 <= t)%Q as Ht0 by (apply Qmult_le_0_compat; lra).
  assert (t <= 2 * K)%Q as Ht1
    by (unfold t; apply Qmult_le_compat_r; lra).
  set (z := (qs / (K + 1))%Q) in *.
  assert (z * (K + 1) == qs)%Q as Hz by (unfold z; field; lra).
  assert (qa' * (K + 1)
          <= (z + (1 # 9007199254740992) * z + eta64) * (K + 1))%Q as E1
    by (apply Qmult_le_compat_r; lra).
  assert ((z - (1 # 9007199254740992) * z - eta64) * (K + 1)
          <= qa' * (K + 1))%Q as E2
    by (apply Qmult_le_compat_r; lra).
  assert (eta64 * K <= (1 # 1152921504606846976) * K)%Q as E3
    by (apply Qmult_le_compat_r; lra).
  split; lra.
Qed.

Lemma in_unit_value (c : float) :
  in_unit c →
  ∃ q, value c = Some q ∧ to_Q c = q ∧ (0 <= q)%Q ∧ (q <= 1)%Q.
Proof.
  unfold in_unit, to_Q. destruct (value c) as [q|]; [| done].
  intros H. apply andb_prop_elim in H as [H0 H1].
  apply Is_true_true, Qle_bool_iff in H0. apply Is_true_true, Qle_bool_iff in H1.
  by exists q.
Qed.

Lemma inject_Z_succ (k : Z) : (inject_Z (k + 1) == inject_Z k + 1)%Q.
Proof. rewrite inject_Z_plus. reflexivity. Qed.

Lemma near_mean_compat (k : Z) (a S S' : Q) :
  (S == S')%Q → near_mean k a S → near_mean k a S'.
Proof. unfold near_mean. intros HS. rewrite HS. done. Qed.

(** *** The stored average against the mean *)

(** one update of the average, as [log_run] computes it *)
Lemma float_step (a c : float) (k : Z) (qa qc S : Q) :
  0 ≤ k → k + 1 < 2 ^ 50 →
  value a = Some qa → value c = Some qc →
  (0 <= qc)%Q → (qc <= 1)%Q →
  near_mean k qa S →
  ∃ qa',
    value (fdiv (fadd (fmul a (of_int (k + 1 - 1))) c) (of_int (k + 1)))
    = Some qa'
    ∧ near_mean (k + 1) qa' (S + qc).
Proof.
  intros Hk Hk1 Ha Hc Hc0 Hc1 (Ha0 & Ha2 & HS0 & HS1 & HD1 & HD2).
  change (fdiv ?x ?y) with (PrimFloat.div x y).
  change (fadd ?x ?y) with (PrimFloat.add x y).
  change (fmul ?x ?y) with (PrimFloat.mul x y).
  change (of_int ?n) with (float_of_int n).
  replace (k + 1 - 1) with k by lia.
  destruct (value_of_int k ltac:(lia)) as (qk & Hqk & Ek).
  destruct (value_of_int (k + 1) ltac:(lia)) as (qk1 & Hqk1 & Ek1).
  rewrite inject_Z_succ in Ek1.
  set (K := inject_Z k) in *.
  assert (0 <= K)%Q as HK0
    by (unfold K; change 0%Q with (inject_Z 0); rewrite <- Zle_Qle; lia).
  assert (K + 1 <= inject_Z (2 ^ 50))%Q as HK1.
  { unfold K. rewrite <- inject_Z_succ, <- Zle_Qle. lia. }
  assert (inject_Z (2 ^ 50) == 1125899906842624 # 1)%Q as E50 by reflexivity.
  assert ((1125899906842624 # 1) * 8 <= pow2 900)%Q as Hbig.
  { change ((1125899906842624 # 1) * 8)%Q with (pow2 53). apply pow2_le. lia. }
  assert (qa * K <= 2 * K)%Q as Ht by (apply Qmult_le_compat_r; lra).
  assert (0 <= qa * K)%Q as Ht0 by (apply Qmult_le_0_compat; lra).
  pose proof eta64_small as [He0 _]. pose proof u64_value as Hu.
  assert (eta64 <= 1 # 1152921504606846976)%Q as He1.
  { change (1 # 1152921504606846976)%Q with (pow2 (-60)). apply pow2_le. lia. }
  (* the product *)
  destruct (value_mul a (float_of_int k) qa qk Ha Hqk) as (qp & Hp & Hp0 & Hp1 & Hp2).
  { lra. } { lra. } { rewrite Ek. lra. }
  rewrite Ek in Hp1, Hp2.
  (* the sum *)
  destruct (value_add _ c qp qc Hp Hc) as (qs & Hs & Hs0 & Hs1 & Hs2).
  { lra. } { lra. } { rewrite Hu in *. lra. }
  (* the quotient *)
  assert (qs <= 3 * (K + 1))%Q as Hqs3 by (rewrite Hu in *; lra).
  assert (0 < qk1)%Q as Hqk1pos by lra.
  assert (qs / qk1 <= 3)%Q as Hz3.
  { apply Qle_shift_div_r; [done |]. rewrite Ek1. lra. }
  destruct (value_div _ (float_of_int (k + 1)) qs qk1 Hs Hqk1)
    as (qa' & Ha' & Ha'0 & Ha'1 & Ha'2).
  { done. } { done. } { lra. }
  rewrite Ek1 in Ha'1, Ha'2.
  exists qa'. split; [exact Ha' |].
  destruct (step_error qa qc K qp qs qa') as [Hb1 Hb2]; try done.
  assert (tol64 == 1 # 1125899906842624)%Q as Htol by reflexivity.
  assert (K * K <= (1125899906842624 # 1) * K)%Q as HKK
    by (apply Qmult_le_compat_r; lra).
  assert (0 <= K * K)%Q as HKK0 by (apply Qmult_le_0_compat; lra).
  unfold near_mean. rewrite inject_Z_succ. fold K.
  rewrite Htol in *.
  assert ((K + 1) * qa' <= (K + 1) * 2)%Q as Hup by lra.
  assert (qa' <= 2)%Q as Hqa'2.
  { apply (Qmult_le_l _ _ (K + 1)); [lra | done]. }
  repeat split; lra.
Qed.

Lemma log_runs_near_mean (d : list string) (rs : list (@run_record float)) :
  ∀ (w : @world float) (e : Entry) (qa S : Q),
    stored d w = Some e →
    0 ≤ runs (performance e) →
    runs (performance e) + Z.of_nat (length rs) < 2 ^ 50 →
    value (avg_confidence (performance e)) = Some qa →
    near_mean (runs (performance e)) qa S →
    Forall in_unit (confidences rs) →
    ∃ e' qa',
      stored d (exec_all (log_runs d rs) w) = Some e'
      ∧ runs (performance e') = runs (performance e) + Z.of_nat (length rs)
      ∧ value (avg_confidence (performance e')) = Some qa'
      ∧ near_mean (runs (performance e')) qa'
          (S + Qsum (to_Q <$> confidences rs)).
Proof.
  induction rs as [|[[c r] cs] rs IH]; intros w e qa S Hst Hk Hn Hv Hinv Hin.
  - exists e, qa. simpl. split; [done |]. split; [lia |]. split; [done |].
    eapply near_mean_compat; [| exact Hinv]. ring.
  - simpl in Hin. apply Forall_cons in Hin as [Hc Hin].
    destruct (in_unit_value c Hc) as (qc & Hqc & Eqc & Hc0 & Hc1).
    simpl length in Hn.
    destruct (log_run_stored d c r cs w e Hst ltac:(lia))
      as (e1 & Hst1 & Hr1 & Havg1).
    destruct (float_step (avg_confidence (performance e)) c
                (runs (performance e)) qa qc S Hk ltac:(lia) Hv Hqc Hc0 Hc1 Hinv)
      as (qa1 & Hv1 & Hinv1).
    rewrite <- Havg1, <- Hr1 in *.
    destruct (IH _ e1 qa1 (S + qc)%Q Hst1 ltac:(lia) ltac:(lia) Hv1 Hinv1 Hin)
      as (e' & qa' & Hst' & Hr' & Hv' & Hinv').
    exists e', qa'. split; [exact Hst' |]. split; [simpl length; lia |].
    split; [exact Hv' |].
    eapply near_mean_compat; [| exact Hinv'].
    change (Qsum (to_Q <$> confidences ((c, r, cs) :: rs)))
      with (to_Q c + Qsum (to_Q <$> confidences rs))%Q.
    rewrite Eqc. ring.
Qed.

(** C4, as amended: starting from a freshly created entry, after [n] runs
    (at least one, fewer than [2^50]) whose confidences are finite binary64
    numbers from 0 to 1 are logged one after the other, the stored average
    is a finite number within [n * 2^-50] of the arithmetic mean of the
    confidences. *)
Theorem avg_confidence_near_mean
    (domains : list string) (rs : list (@run_record float))
    (w : @world float) (e : Entry) :
  stored domains w = Some e →
  performance e = fresh_performance →
  rs ≠ [] →
  Z.of_nat (length rs) < 2 ^ 50 →
  Forall in_unit (confidences rs) →
  ∃ e' a,
    stored domains (exec_all (log_runs domains rs) w) = Some e'
    ∧ runs (performance e') = Z.of_nat (length rs)
    ∧ value (avg_confidence (performance e')) = Some a
    ∧ (Qabs (a - mean (to_Q <$> confidences rs))
       <= inject_Z (Z.of_nat (length rs)) * tol64)%Q.
Proof.
  intros Hst Hfresh Hne Hlen Hin.
  assert (tol64 == 1 # 1125899906842624)%Q as Htol by reflexivity.
  assert (runs (performance e) = 0) as Hr0 by by rewrite Hfresh.
  assert (value (avg_confidence (performance e)) = Some 0%Q) as Hv0
    by by rewrite Hfresh.
  assert (near_mean (runs (performance e)) 0 0) as Hinv0.
  { rewrite Hr0. unfold near_mean. rewrite Htol.
    change (inject_Z 0) with 0%Q. repeat split; lra. }
  destruct (log_runs_near_mean domains rs w e 0%Q 0%Q Hst
              ltac:(lia) ltac:(lia) Hv0 Hinv0 Hin)
    as (e' & a & Hst' & Hr' & Hv' & Hinv).
  rewrite Hr0, Z.add_0_l in Hr'.
  exists e', a. split; [exact Hst' |]. split; [lia |]. split; [exact Hv' |].
  rewrite Hr' in Hinv.
  destruct Hinv as (_ & _ & _ & _ & HD1 & HD2).
  assert (length (to_Q <$> confidences rs) = length rs) as Hl
    by (unfold confidences; by rewrite !length_fmap).
  unfold mean. rewrite Hl.
  set (N := inject_Z (Z.of_nat (length rs))) in *.
  set (S := Qsum (to_Q <$> confidences rs)) in *.
  assert (0 < N)%Q as HN.
  { unfold N. change 0%Q with (inject_Z 0). rewrite <- Zlt_Qlt.
    destruct rs; simpl in *; [done | lia]. }
  set (m := (S / N)%Q).
  assert (m * N == S)%Q as Hm by (unfold m; field; lra).
  rewrite Htol in *. clearbody m N S.
  apply Qabs_Qle_condition. split.
  - apply (Qmult_le_l _ _ N); [done |]. lra.
  - apply (Qmult_le_l _ _ N); [done |]. lra.
Qed.

Lemma avg_confidence_near_mean_witness :
  let w : @world float := after [first_draft] in
  let rs : list (@run_record float) :=
    [(0.5%float, "calm", []);
     (0x1.6666666666666p-1%float, "storm", ["rates"]);
     (0x1.ccccccccccccdp-1%float, "storm", [])] in
  ∃ e, stored tags w = Some e
       ∧ performance e = fresh_performance
       ∧ rs ≠ []
       ∧ Z.of_nat (length rs) < 2 ^ 50
       ∧ Forall in_unit (confidences rs)
       ∧ ∃ e' a,
           stored tags (exec_all (log_runs tags rs) w) = Some e'
           ∧ runs (performance e') = Z.of_nat (length rs)
           ∧ value (avg_confidence (performance e')) = Some a
           ∧ (Qabs (a - mean (to_Q <$> confidences rs))
              <= inject_Z (Z.of_nat (length rs)) * tol64)%Q.
Proof.
  intros w rs.
  assert (Forall in_unit (confidences rs)) as Hin
    by (repeat (constructor; [vm_compute; exact I |]); constructor).
  eexists. split; [vm_compute; reflexivity |].
  split; [reflexivity |]. split; [discriminate |].
  split; [reflexivity |]. split; [exact Hin |].
  eapply (avg_confidence_near_mean tags rs w);
    [vm_compute; reflexivity | reflexivity | discriminate | reflexivity
    | exact Hin].
Defined.

(** C4, as the specification words it, fails in binary64: the four
    confidences 1, 2^-53, 2^-53 and 0 have the mean 2^-2 + 2^-54, a
    binary64 number, and the stored average is 2^-2. *)
Lemma running_average_is_not_the_mean :
  let w : @world float := after [first_draft] in
  let rs : list (@run_record float) :=
    [(1%float, "calm", []); (0x1p-53%float, "calm", []);
     (0x1p-53%float, "calm", []); (0%float, "calm", [])] in
  Forall in_unit (confidences rs)
  ∧ ∃ e',
      stored tags (exec_all (log_runs tags rs) w) = Some e'
      ∧ runs (performance e') = 4
      ∧ avg_confidence (performance e') = 0x1p-2%float
      ∧ (mean (to_Q <$> confidences rs) == to_Q 0x1.0000000000001p-2%float)%Q
      ∧ ¬ (to_Q (avg_confidence (performance e'))
           == mean (to_Q <$> confidences rs))%Q.
Proof.
  intros w rs.
  split; [repeat (constructor; [vm_compute; exact I |]); constructor |].
  eexists. split; [vm_compute; reflexivity |].
  split; [reflexivity |]. split; [reflexivity |].
  split; [vm_compute; reflexivity |].
  intros H. vm_compute in H. discriminate.
Qed.

(** Outside the range the distance is not bounded: two confidences of
    1e308 overflow to infinity. *)
Example running_average_overflows :
  let w : @world float := after [first_draft] in
  let rs : list (@run_record float) :=
    [(0x1.1ccf385ebc8ap1023%float, "calm", []);
     (0x1.1ccf385ebc8ap1023%float, "calm", [])] in
  (λ e, avg_confidence (performance e))
    <$> stored tags (exec_all (log_runs tags rs) w) = Some infinity
  ∧ value infinity = None.
Proof. vm_compute. done. Qed.

(** ** Further properties of the module *)

Arguments _domain_key : simpl never.
Arguments Py.last_n : simpl never.
Arguments Py.sorted : simpl never.

Ltac run_api :=
  unfold _load_library, _save_library, read_file, write_file, datetime_now,
    raise, mbind, M_bind, mret, M_ret; simpl.

Ltac stored_now :=
  unfold stored, entry_at; simpl; rewrite ?lookup_insert_eq.

Section Further.
Context {F : Type} `{!PyFloat F}.
Implicit Types (w : @world F) (e ex : @Entry F) (lib : @Library F)
  (o : @op F) (p : @Performance F).

Lemma truthy_true (s : string) : Py.truthy s = true ↔ s ≠ "".
Proof.
  unfold Py.truthy. rewrite negb_true_iff. apply String.eqb_neq.
Qed.

Lemma truthy_false (s : string) : Py.truthy s = false ↔ s = "".
Proof.
  unfold Py.truthy. rewrite negb_false_iff. apply String.eqb_eq.
Qed.

(** *** Draft saves *)

(** A draft save on a key without entry, with or without a file, creates
    the entry: version 1, status draft, no history, no curation marks,
    counters at zero. *)
Theorem save_draft_fresh_key (d : list string) (sp ui gb : string) w :
  stored d w = None →
  ∃ e w',
    save_draft d sp ui gb w = (Ok e, w')
    ∧ stored d w' = Some e
    ∧ key e = _domain_key d
    ∧ domains e = Py.sorted d
    ∧ version e = 1
    ∧ status e = draft
    ∧ system_prompt e = sp
    ∧ user_intent e = ui
    ∧ generated_by e = gb
    ∧ history e = []
    ∧ performance e = fresh_performance
    ∧ human_notes e = ""
    ∧ curated_at e = None
    ∧ curated_by e = None.
Proof.
  destruct w as [[lib|] c]; unfold stored, entry_at; simpl; intros Hk;
    unfold save_draft; run_api.
  - rewrite Hk. simpl. eexists _, _. split; [reflexivity |].
    stored_now. by repeat split.
  - rewrite lookup_empty. simpl. eexists _, _. split; [reflexivity |].
    stored_now. by repeat split.
Qed.

(** A draft save on an entry that is not curated (draft or evolving)
    replaces text, intent and generator, numbers the result one above,
    makes it a draft again, and archives the state it replaces as the
    newest of at most ten snapshots; counters, notes and creation time are
    carried over. *)
Theorem save_draft_overwrites (d : list string) (sp ui gb : string) w ex :
  stored d w = Some ex →
  status ex ≠ curated →
  ∃ e w',
    save_draft d sp ui gb w = (Ok e, w')
    ∧ stored d w' = Some e
    ∧ version e = version ex + 1
    ∧ status e = draft
    ∧ system_prompt e = sp
    ∧ user_intent e = ui
    ∧ generated_by e = gb
    ∧ history e = Py.last_n 10 (history ex ++ [archive ex (clock w)])
    ∧ performance e = performance ex
    ∧ human_notes e = human_notes ex
    ∧ created_at e = created_at ex
    ∧ curated_at e = None
    ∧ curated_by e = None.
Proof.
  destruct w as [[lib|] c]; [| done].
  unfold stored, entry_at; simpl. intros Hk Hst.
  unfold save_draft. run_api. rewrite Hk.
  destruct (decide (status ex = curated)); [done |]. simpl.
  eexists _, _. split; [reflexivity |].
  stored_now. by repeat split.
Qed.

(** *** A key without entry *)

(** On a key without entry, curation and rollback raise the not-found
    error, a logged run returns silently, a deletion answers false and a
    lookup answers none; none of them writes the file. *)
Theorem missing_entry_behaviour (d : list string) w :
  stored d w = None →
  (∀ ed cu no, ∃ w',
      curate_prompt d ed cu no w = (Raise (NotFound d), w') ∧ disk w' = disk w)
  ∧ (∀ v, ∃ w',
      rollback d v w = (Raise (NotFound d), w') ∧ disk w' = disk w)
  ∧ (∀ c r cs, ∃ w', log_run d c r cs w = (Ok tt, w') ∧ disk w' = disk w)
  ∧ (∃ w', delete_prompt d w = (Ok false, w') ∧ disk w' = disk w)
  ∧ (∃ w', get_prompt d w = (Ok None, w') ∧ disk w' = disk w)
  ∧ (∃ w', get_best_prompt d w = (Ok None, w') ∧ disk w' = disk w).
Proof.
  destruct w as [[lib|] c]; unfold stored, entry_at; simpl; intros Hk.
  - repeat split; intros;
      unfold curate_prompt, rollback, log_run, delete_prompt,
        get_best_prompt, get_prompt; run_api; rewrite Hk; simpl;
      by eexists.
  - repeat split; intros;
      unfold curate_prompt, rollback, log_run, delete_prompt,
        get_best_prompt, get_prompt; run_api; rewrite lookup_empty; simpl;
      by eexists.
Qed.

(** *** Curation *)

(** Curation works on an entry of any status, a curated one included: the
    result is curated and numbered one above, records the curator and a
    curation time, takes the edited text when one is given and non-empty
    and keeps the old text when none or the empty string is given, does
    the same with the notes, and archives the state it replaces; counters,
    key, domains, intent, generator and creation time are left alone. *)
Theorem curate_prompt_effect
    (d : list string) (ed : option string) (cu no : string) w e :
  stored d w = Some e →
  ∃ e' w',
    curate_prompt d ed cu no w = (Ok e', w')
    ∧ stored d w' = Some e'
    ∧ status e' = curated
    ∧ version e' = version e + 1
    ∧ (∀ t, ed = Some t → t ≠ "" → system_prompt e' = t)
    ∧ (ed = None ∨ ed = Some "" → system_prompt e' = system_prompt e)
    ∧ curated_by e' = Some cu
    ∧ is_Some (curated_at e')
    ∧ (no ≠ "" → human_notes e' = no)
    ∧ (no = "" → human_notes e' = human_notes e)
    ∧ history e' = Py.last_n 10 (history e ++ [archive e (clock w)])
    ∧ performance e' = performance e
    ∧ created_at e' = created_at e
    ∧ key e' = key e
    ∧ domains e' = domains e
    ∧ user_intent e' = user_intent e
    ∧ generated_by e' = generated_by e.
Proof.
  destruct w as [[lib|] c]; [| done].
  unfold stored, entry_at; simpl. intros Hk.
  unfold curate_prompt. run_api. rewrite Hk. simpl.
  eexists _, _. split; [reflexivity |].
  stored_now. split; [reflexivity |].
  split; [done |]. split; [by destruct ed as [t|]; [destruct (Py.truthy t) |] |].
  split.
  { intros t -> Ht. apply truthy_true in Ht. by rewrite Ht. }
  split; [by intros [-> | ->] |].
  split; [done |]. split; [done |].
  split.
  { intros Hno. apply truthy_true in Hno. rewrite Hno.
    by destruct ed as [t|]; [destruct (Py.truthy t) |]. }
  split.
  { intros Hno. apply truthy_false in Hno. rewrite Hno.
    by destruct ed as [t|]; [destruct (Py.truthy t) |]. }
  destruct ed as [t|]; [destruct (Py.truthy t) |]; by repeat split.
Qed.

(** *** Reading back *)

(** The entry a draft save, a curation or a rollback returns is the one
    the next lookup returns. *)
Theorem written_entry_is_read_back (d : list string) w w' e :
  (∀ sp ui gb, save_draft d sp ui gb w = (Ok e, w') →
               get_prompt d w' = (Ok (Some e), w'))
  ∧ (∀ ed cu no, curate_prompt d ed cu no w = (Ok e, w') →
                 get_prompt d w' = (Ok (Some e), w'))
  ∧ (∀ v, rollback d v w = (Ok e, w') →
          get_prompt d w' = (Ok (Some e), w')).
Proof.
  split; [| split].
  - intros sp ui gb. destruct w as [[lib|] c]; unfold save_draft; run_api.
    + destruct (prompts lib !! _domain_key d) as [ex|] eqn:Hk;
        [destruct (decide (status ex = curated)) |]; simpl;
        intros [= <- <-]; unfold get_prompt; run_api;
        by rewrite ?lookup_insert_eq, ?Hk.
    + rewrite lookup_empty. simpl. intros [= <- <-].
      unfold get_prompt. run_api. by rewrite lookup_insert_eq.
  - intros ed cu no. destruct w as [[lib|] c]; unfold curate_prompt; run_api.
    + destruct (prompts lib !! _domain_key d) as [ex|] eqn:Hk; simpl;
        [| done].
      intros [= <- <-]. unfold get_prompt. run_api.
      by rewrite lookup_insert_eq.
    + by rewrite lookup_empty.
  - intros v. destruct w as [[lib|] c]; unfold rollback; run_api.
    + destruct (prompts lib !! _domain_key d) as [ex|] eqn:Hk; simpl;
        [| done].
      destruct (find_version v (history ex)); simpl; [| done].
      intros [= <- <-]. unfold get_prompt. run_api.
      by rewrite lookup_insert_eq.
    + by rewrite lookup_empty.
Qed.

Lemma get_best_prompt_stored (d : list string) w :
  (get_best_prompt d w).1 = Ok (system_prompt <$> stored d w).
Proof.
  destruct w as [[lib|] c]; unfold get_best_prompt, get_prompt, stored,
    entry_at; run_api.
  - destruct (prompts lib !! _domain_key d) as [ex|]; simpl; [| done].
    by destruct (status ex).
  - by rewrite lookup_empty.
Qed.

(** After a draft save the best prompt is the saved text, unless the entry
    was curated: then it is still the curated text. *)
Theorem best_prompt_after_save_draft (d : list string) (sp ui gb : string) w :
  (get_best_prompt d (exec (SaveDraft d sp ui gb) w)).1
  = Ok (Some match stored d w with
             | Some e => if decide (status e = curated)
                         then system_prompt e else sp
             | None => sp
             end).
Proof.
  rewrite get_best_prompt_stored. f_equal.
  destruct w as [[lib|] c]; unfold stored, entry_at; simpl;
    unfold save_draft; run_api.
  - destruct (prompts lib !! _domain_key d) as [ex|] eqn:Hk;
      [destruct (decide (status ex = curated)) |]; simpl;
      by rewrite ?lookup_insert_eq, ?Hk.
  - rewrite lookup_empty. simpl. by rewrite lookup_insert_eq.
Qed.

(** *** Other keys, and the file *)

Lemma exec_frame o w (k : string) :
  k ≠ _domain_key (op_domains o) →
  entry_at k (exec o w) = entry_at k w.
Proof.
  intros Hne.
  destruct w as [[lib|] c], o as [d sp ui gb|d ed cu no|d cf r cs|d v|d];
    unfold entry_at; simpl in *;
    unfold save_draft, curate_prompt, log_run, rollback, delete_prompt;
    run_api; rewrite ?lookup_empty; simpl;
    repeat match goal with
      | |- context [prompts lib !! _domain_key d] =>
          destruct (prompts lib !! _domain_key d) as [ex|]; simpl
      | |- context [decide ?P] => destruct (decide P); simpl
      | |- context [find_version ?v ?h] => destruct (find_version v h); simpl
      end;
    rewrite ?lookup_insert_ne, ?lookup_delete_ne, ?lookup_empty by done;
    done.
Qed.

(** No operation touches the entry of a key other than the one derived
    from its domain list. *)
Theorem exec_other_keys o w (k : string) :
  k ≠ _domain_key (op_domains o) →
  entry_at k (exec o w) = entry_at k w.
Proof. apply exec_frame. Qed.

(** Once the file exists every operation leaves a file behind, with the
    creation stamp it had. *)
Theorem exec_keeps_file o w lib :
  disk w = Some lib →
  ∃ lib', disk (exec o w) = Some lib'
          ∧ metadata_created lib' = metadata_created lib.
Proof.
  destruct w as [dk c]; simpl. intros ->.
  destruct o as [d sp ui gb|d ed cu no|d cf r cs|d v|d]; simpl;
    unfold save_draft, curate_prompt, log_run, rollback, delete_prompt;
    run_api;
    repeat match goal with
      | |- context [prompts lib !! _domain_key d] =>
          destruct (prompts lib !! _domain_key d) as [ex|]; simpl
      | |- context [decide ?P] => destruct (decide P); simpl
      | |- context [find_version ?v ?h] => destruct (find_version v h); simpl
      end;
    by eexists.
Qed.

(** *** Deletion *)

(** Deleting an existing entry answers true and removes it, whatever its
    status: the next lookup finds nothing, and the next draft save starts
    over at version 1 with no history and counters at zero. *)
Theorem delete_then_save_restarts (d : list string) (sp ui gb : string) w e :
  stored d w = Some e →
  ∃ w1 e' w2,
    delete_prompt d w = (Ok true, w1)
    ∧ stored d w1 = None
    ∧ save_draft d sp ui gb w1 = (Ok e', w2)
    ∧ stored d w2 = Some e'
    ∧ version e' = 1
    ∧ status e' = draft
    ∧ history e' = []
    ∧ performance e' = fresh_performance
    ∧ curated_at e' = None.
Proof.
  destruct w as [[lib|] c]; [| done].
  unfold stored, entry_at; simpl. intros Hk.
  unfold delete_prompt. run_api. rewrite Hk. simpl.
  eexists _, _, _. split; [reflexivity |].
  split; [stored_now; by rewrite lookup_delete_eq |].
  unfold save_draft. run_api. rewrite lookup_delete_eq. simpl.
  split; [reflexivity |]. stored_now. by repeat split.
Qed.

(** *** What every reachable store keeps true *)

Lemma contiguous_drop (vs : list Z) (v : Z) (k : nat) :
  vs = seqZ (v - Z.of_nat (length vs)) (Z.of_nat (length vs)) →
  drop k vs
  = seqZ (v - Z.of_nat (length (drop k vs))) (Z.of_nat (length (drop k vs))).
Proof.
  remember (length vs) as n eqn:Hn. intros ->. clear Hn.
  rewrite length_drop, length_seqZ, Nat2Z.id.
  apply list_eq. intros i. rewrite lookup_drop.
  destruct (decide (k + i < n)%nat).
  - rewrite !lookup_seqZ_lt by lia. f_equal. lia.
  - by rewrite !lookup_seqZ_ge by lia.
Qed.

Lemma contiguous_snoc (vs : list Z) (v : Z) :
  vs = seqZ (v - Z.of_nat (length vs)) (Z.of_nat (length vs)) →
  vs ++ [v]
  = seqZ (v + 1 - Z.of_nat (length (vs ++ [v])))
         (Z.of_nat (length (vs ++ [v]))).
Proof.
  intros Hvs. rewrite length_app. simpl.
  replace (length vs + 1)%nat with (S (length vs)) by lia.
  rewrite seqZ_S.
  replace (v + 1 - Z.of_nat (S (length vs))) with (v - Z.of_nat (length vs))
    by lia.
  rewrite <- Hvs. f_equal. f_equal. lia.
Qed.

Lemma contiguous_step (hist : list Snapshot) (v : Z) (x : Snapshot) (k : nat) :
  h_version <$> hist
    = seqZ (v - Z.of_nat (length hist)) (Z.of_nat (length hist)) →
  h_version x = v →
  h_version <$> drop k (hist ++ [x])
  = seqZ (v + 1 - Z.of_nat (length (drop k (hist ++ [x]))))
         (Z.of_nat (length (drop k (hist ++ [x])))).
Proof.
  intros Hh Hx.
  rewrite <- (length_fmap h_version (drop k (hist ++ [x]))).
  rewrite fmap_drop, fmap_app. simpl. rewrite Hx.
  apply contiguous_drop, contiguous_snoc.
  by rewrite length_fmap.
Qed.

Lemma last_n_snoc_length {A} (l : list A) (x : A) :
  length (Py.last_n 10 (l ++ [x])) = (S (length l) `min` 10)%nat.
Proof.
  unfold Py.last_n. rewrite length_drop, length_app. simpl. lia.
Qed.

Lemma find_version_elem (v : Z) (hist : list Snapshot) (t : Snapshot) :
  find_version v hist = Some t → t ∈ hist ∧ h_version t = v.
Proof.
  induction hist as [|h hist IH]; simpl; [done |].
  destruct (decide (h_version h = v)) as [Heq|Hne].
  - intros [= <-]. split; [left | done].
  - intros Hf. destruct (IH Hf). split; [by right | done].
Qed.

Lemma sorted_domains_key (d : list string) :
  _domain_key (Py.sorted d) = _domain_key d.
Proof.
  apply domain_key_permutation. unfold Py.sorted.
  apply merge_sort_Permutation.
Qed.

Lemma entry_ok_created (d : list string) (sp ui gb : string) (t1 t2 : timestamp) :
  entry_ok (_domain_key d)
    {| key := _domain_key d; status := draft; system_prompt := sp;
       version := 1; domains := Py.sorted d; user_intent := ui;
       generated_by := gb; created_at := t1; updated_at := t2;
       curated_at := None; curated_by := None;
       performance := fresh_performance; human_notes := "";
       history := [] |}.
Proof.
  constructor; simpl; try done. apply sorted_domains_key.
Qed.

(** the state left by a write that archives [ex] and cuts the history *)
Lemma entry_ok_archived (k : string) ex e' (t : timestamp) (cut : nat) :
  entry_ok k ex →
  key e' = key ex →
  domains e' = domains ex ∨ _domain_key (domains e') = k →
  version e' = version ex + 1 →
  history e' = drop cut (history ex ++ [archive ex t]) →
  (cut = length (history ex ++ [archive ex t]) - 10 ∨ cut = 0)%nat →
  performance e' = performance ex →
  (status e' = evolving → 20 ≤ runs (performance ex)) →
  entry_ok k e'.
Proof.
  intros [Hkey Hdom Hcont Hlen Hcnt Hevo Hevd] Hk' Hd' Hv' Hh' Hcut Hp' Hs'.
  constructor.
  - congruence.
  - destruct Hd' as [->|]; done.
  - unfold history_contiguous. rewrite Hh', Hv'.
    by apply contiguous_step.
  - rewrite Hh', Hv', length_drop.
    destruct Hcut as [-> | ->]; rewrite !length_app; simpl; lia.
  - by rewrite Hp'.
  - by rewrite Hp'.
  - rewrite Hh', Hp'. apply Forall_drop, Forall_app. split; [done |].
    by repeat constructor.
Qed.

Lemma store_ok_set_prompt lib (k : string) e' (c c' : nat) :
  store_ok {| disk := Some lib; clock := c |} →
  entry_ok k e' →
  store_ok {| disk := Some (set_prompt lib k e'); clock := c' |}.
Proof.
  intros Hok He' k' e. unfold entry_at; simpl. rewrite lookup_insert.
  case_decide; [by intros [= <-]; subst | apply (Hok k')].
Qed.

Lemma store_ok_del_prompt lib (k : string) (c c' : nat) :
  store_ok {| disk := Some lib; clock := c |} →
  store_ok {| disk := Some (del_prompt lib k); clock := c' |}.
Proof.
  intros Hok k' e. unfold entry_at; simpl.
  rewrite lookup_delete_Some. intros [_ Hl]. by apply (Hok k').
Qed.

Lemma store_ok_fresh (t : timestamp) (c : nat) :
  @store_ok F {| disk := Some {| prompts := ∅; metadata_created := t |};
                 clock := c |}.
Proof. intros k e. unfold entry_at; simpl. by rewrite lookup_empty. Qed.

Lemma entry_ok_logged (k : string) ex (c : F) (r : string) (cs : list string)
    (t : timestamp) :
  entry_ok k ex →
  let perf :=
    {| runs := runs (performance ex) + 1;
       avg_confidence :=
         fdiv (fadd (fmul (avg_confidence (performance ex))
                          (of_int (runs (performance ex) + 1 - 1))) c)
              (of_int (runs (performance ex) + 1));
       regime_changes :=
         if regime_changed (last_regime (performance ex)) r
         then regime_changes (performance ex) + 1
         else regime_changes (performance ex);
       conflicts_detected :=
         match cs with
         | [] => conflicts_detected (performance ex)
         | _ :: _ => conflicts_detected (performance ex) + 1
         end;
       last_run := Some t;
       last_regime := Some r |} in
  entry_ok k
    (set_performance perf
       (if bool_decide (status ex = draft) && (20 <=? runs perf)
             && fgt (avg_confidence perf) lit_0_6
        then set_status evolving ex else ex)).
Proof.
  intros [Hkey Hdom Hcont Hlen Hcnt Hevo Hevd] perf.
  destruct Hcnt as (Hconf & Hreg & Hzero).
  assert (0 ≤ runs (performance ex)) by lia.
  assert (regime_changed (last_regime (performance ex)) r = true →
          1 ≤ runs (performance ex)) as Hfirst.
  { intros Hch. destruct (decide (runs (performance ex) = 0)) as [Hz|]; [| lia].
    by rewrite (Hzero Hz) in Hch. }
  destruct (bool_decide (status ex = draft) && (20 <=? runs perf)
            && fgt (avg_confidence perf) lit_0_6) eqn:Hpromo.
  - apply andb_prop in Hpromo as [Hpromo _].
    apply andb_prop in Hpromo as [_ Hruns]. apply Z.leb_le in Hruns.
    constructor; simpl; try done.
    + unfold counters_ok; simpl.
      destruct (regime_changed _ r) eqn:Hch; destruct cs; try lia.
      all: specialize (Hfirst eq_refl); lia.
    + eapply Forall_impl; [exact Hevd |]. simpl. intros h Hh Hs. done.
  - constructor; simpl; try done.
    + unfold counters_ok; simpl.
      destruct (regime_changed _ r) eqn:Hch; destruct cs; try lia.
      all: specialize (Hfirst eq_refl); lia.
    + intros Hs. specialize (Hevo Hs). lia.
    + eapply Forall_impl; [exact Hevd |]. simpl. intros h Hh Hs.
      specialize (Hh Hs). lia.
Qed.

Lemma exec_store_ok o w : store_ok w → store_ok (exec o w).
Proof.
  destruct w as [[lib|] c]; intros Hok.
  - destruct o as [d sp ui gb|d ed cu no|d cf r cs|d v|d]; simpl.
    + unfold save_draft. run_api.
      destruct (prompts lib !! _domain_key d) as [ex|] eqn:Hk.
      * destruct (decide (status ex = curated)); simpl; [done |].
        apply (store_ok_set_prompt _ _ _ c); [done |].
        pose proof (Hok (_domain_key d) ex Hk) as Hex.
        eapply (entry_ok_archived _ ex _ c); simpl; try done.
        -- by destruct Hex.
        -- right. apply sorted_domains_key.
        -- by left.
      * simpl. apply (store_ok_set_prompt _ _ _ c); [done |].
        apply entry_ok_created.
    + unfold curate_prompt. run_api.
      destruct (prompts lib !! _domain_key d) as [ex|] eqn:Hk; simpl; [| done].
      apply (store_ok_set_prompt _ _ _ c); [done |].
      pose proof (Hok (_domain_key d) ex Hk) as Hex.
      destruct ed as [ed|]; [destruct (Py.truthy ed) |];
        (eapply (entry_ok_archived _ ex _ c); simpl; try done; by auto).
    + unfold log_run. run_api.
      destruct (prompts lib !! _domain_key d) as [ex|] eqn:Hk; simpl; [| done].
      destruct (decide _); simpl; [done |].
      apply (store_ok_set_prompt _ _ _ c); [done |].
      apply entry_ok_logged. by apply (Hok (_domain_key d)).
    + unfold rollback. run_api.
      destruct (prompts lib !! _domain_key d) as [ex|] eqn:Hk; simpl; [| done].
      destruct (find_version v (history ex)) as [tg|] eqn:Hf; simpl; [| done].
      apply (store_ok_set_prompt _ _ _ c); [done |].
      pose proof (Hok (_domain_key d) ex Hk) as Hex.
      eapply (entry_ok_archived _ ex _ c 0); simpl; try done; try by auto.
      intros Hs. apply find_version_elem in Hf as [Hin _].
      destruct Hex as [_ _ _ _ _ _ Hevd].
      rewrite Forall_forall in Hevd. by apply (Hevd tg).
    + unfold delete_prompt. run_api.
      destruct (prompts lib !! _domain_key d) as [ex|] eqn:Hk; simpl; [| done].
      by apply (store_ok_del_prompt _ _ c).
  - destruct o as [d sp ui gb|d ed cu no|d cf r cs|d v|d]; simpl.
    + unfold save_draft. run_api. rewrite lookup_empty. simpl.
      apply (store_ok_set_prompt _ _ _ c); [apply store_ok_fresh |].
      apply entry_ok_created.
    + unfold curate_prompt. run_api. by rewrite lookup_empty.
    + unfold log_run. run_api. by rewrite lookup_empty.
    + unfold rollback. run_api. by rewrite lookup_empty.
    + unfold delete_prompt. run_api. by rewrite lookup_empty.
Qed.

Lemma reachable_store_ok w : reachable w → store_ok w.
Proof.
  induction 1 as [c|o w _ IH]; [| by apply exec_store_ok].
  intros k e. unfold entry_at. done.
Qed.

(** In a reachable store every entry sits under the key it carries, and
    the domain list it carries derives that key again. *)
Theorem stored_entry_carries_its_key w (k : string) e :
  reachable w →
  entry_at k w = Some e →
  key e = k ∧ _domain_key (domains e) = k.
Proof.
  intros Hr He. by destruct (reachable_store_ok w Hr k e He).
Qed.

(** In a reachable store the counters are consistent: conflicts are
    counted at most once per run, regime changes at most once per run
    after the first, and an evolving entry has at least twenty runs. *)
Theorem counters_within_runs w (k : string) e :
  reachable w →
  entry_at k w = Some e →
  0 ≤ conflicts_detected (performance e) ≤ runs (performance e)
  ∧ 0 ≤ regime_changes (performance e)
      ≤ Z.max 0 (runs (performance e) - 1)
  ∧ (status e = evolving → 20 ≤ runs (performance e)).
Proof.
  intros Hr He.
  destruct (reachable_store_ok w Hr k e He) as [_ _ _ _ (? & ? & _) ? _].
  done.
Qed.

(** In a reachable store a logged run never raises: the run counter is
    never negative, so the division by the new count is defined. *)
Theorem log_run_never_raises
    (d : list string) (c : F) (r : string) (cs : list string) w :
  reachable w →
  ∃ w', log_run d c r cs w = (Ok tt, w').
Proof.
  intros Hr. pose proof (reachable_store_ok w Hr (_domain_key d)) as Hok.
  destruct w as [[lib|] k]; unfold log_run; run_api.
  - unfold entry_at in Hok; simpl in Hok.
    destruct (prompts lib !! _domain_key d) as [ex|]; simpl; [| by eexists].
    destruct (Hok ex eq_refl) as [_ _ _ _ (? & _) _ _].
    destruct (decide _); [lia |]. simpl. by eexists.
  - rewrite lookup_empty. by eexists.
Qed.

(** *** Which versions a rollback can reach *)

(** In a reachable store the history holds exactly the consecutive
    versions just below the current one: all of them up to ten, and never
    fewer than the last ten. *)
Theorem history_holds_latest_versions w (k : string) e :
  reachable w →
  entry_at k w = Some e →
  h_version <$> history e
    = seqZ (version e - Z.of_nat (length (history e)))
           (Z.of_nat (length (history e)))
  ∧ Z.min (version e - 1) 10 ≤ Z.of_nat (length (history e)) ≤ version e - 1.
Proof.
  intros Hr He. by destruct (reachable_store_ok w Hr k e He).
Qed.

Lemma find_version_is_Some (v : Z) (hist : list Snapshot) :
  is_Some (find_version v hist) ↔ v ∈ h_version <$> hist.
Proof.
  induction hist as [|h hist IH]; simpl.
  - split; [by intros [? ?] | by intros ?%elem_of_nil].
  - destruct (decide (h_version h = v)) as [<-|Hne].
    + split; [intros _; left | by eexists].
    + rewrite IH, elem_of_cons. split; [by right | by intros [|]].
Qed.

(** In a reachable store a rollback succeeds exactly on the versions from
    [version - length history] up to [version - 1], which always include
    the last ten; on any other version it raises the version-not-found
    error and changes nothing. *)
Theorem rollback_reachable_versions (d : list string) (v : Z) w e :
  reachable w →
  stored d w = Some e →
  (version e - Z.of_nat (length (history e)) ≤ v < version e →
     ∃ e' w', rollback d v w = (Ok e', w') ∧ version e' = version e + 1)
  ∧ (1 ≤ v → version e - 10 ≤ v < version e →
     ∃ e' w', rollback d v w = (Ok e', w') ∧ version e' = version e + 1)
  ∧ (¬ (version e - Z.of_nat (length (history e)) ≤ v < version e) →
     rollback d v w = (Raise (VersionNotFound v), w)).
Proof.
  intros Hr He.
  destruct (reachable_store_ok w Hr _ e He) as [_ _ Hcont Hlen _ _ _].
  assert (is_Some (find_version v (history e))
          ↔ version e - Z.of_nat (length (history e)) ≤ v < version e) as Hiff.
  { rewrite find_version_is_Some, Hcont, elem_of_seqZ. lia. }
  destruct w as [[lib|] c]; [| done].
  unfold stored, entry_at in He; simpl in He.
  assert (∀ tg, find_version v (history e) = Some tg →
            ∃ e' w', rollback d v {| disk := Some lib; clock := c |} = (Ok e', w')
                     ∧ version e' = version e + 1) as Hok.
  { intros tg Hf. unfold rollback. run_api. rewrite He, Hf. simpl.
    by eexists _, _. }
  split; [| split].
  - intros Hv. apply Hiff in Hv as [tg Hf]. by apply (Hok tg).
  - intros H1 Hv. destruct (proj2 Hiff) as [tg Hf]; [lia |]. by apply (Hok tg).
  - intros Hv. unfold rollback. run_api. rewrite He.
    destruct (find_version v (history e)) as [tg|] eqn:Hf; [| done].
    destruct Hv. apply Hiff. by eexists.
Qed.

Lemma elem_of_last_n_snoc {A} (n : nat) (l : list A) (x : A) :
  (0 < n)%nat → x ∈ Py.last_n n (l ++ [x]).
Proof.
  intros Hn. unfold Py.last_n. rewrite length_app. simpl.
  rewrite drop_app_le by lia. apply elem_of_app. right. by left.
Qed.

Lemma find_version_archived ex (t : timestamp) (n : nat) :
  versions_ordered ex →
  (0 < n)%nat →
  find_version (version ex) (Py.last_n n (history ex ++ [archive ex t]))
  = Some (archive ex t).
Proof.
  intros Hord Hn.
  apply (find_version_sorted _ (archive ex t)).
  - apply (StronglySorted_app_1_l _ _ [version ex + 1]).
    apply versions_ordered_last_n, versions_ordered_archive; [done | lia].
  - by apply elem_of_last_n_snoc.
Qed.

(** In a reachable store a rollback to the version just replaced undoes
    the last draft save or curation: text and status are back, under a
    version two above.  The marks of an undone curation stay. *)
Theorem rollback_undoes_last_write (d : list string) w e :
  reachable w →
  stored d w = Some e →
  (status e ≠ curated → ∀ sp ui gb, ∃ e2 w2,
      rollback d (version e) (exec (SaveDraft d sp ui gb) w) = (Ok e2, w2)
      ∧ system_prompt e2 = system_prompt e
      ∧ status e2 = status e
      ∧ version e2 = version e + 2)
  ∧ (∀ ed cu no, ∃ e2 w2,
      rollback d (version e) (exec (Curate d ed cu no) w) = (Ok e2, w2)
      ∧ system_prompt e2 = system_prompt e
      ∧ status e2 = status e
      ∧ version e2 = version e + 2
      ∧ curated_by e2 = Some cu).
Proof.
  intros Hr He. pose proof (reachable_ok w Hr _ e He) as Hord.
  destruct w as [[lib|] c]; [| done].
  unfold stored, entry_at in He; simpl in He.
  split.
  - intros Hst sp ui gb. simpl. unfold save_draft. run_api. rewrite He.
    destruct (decide (status e = curated)); [done |]. simpl.
    unfold rollback. run_api. rewrite lookup_insert_eq. simpl.
    rewrite (find_version_archived e c 10 Hord) by lia. simpl.
    eexists _, _. split; [reflexivity |]. simpl. repeat split. lia.
  - intros ed cu no. simpl. unfold curate_prompt. run_api. rewrite He. simpl.
    unfold rollback. run_api. rewrite lookup_insert_eq.
    destruct ed as [t|]; [destruct (Py.truthy t) |]; simpl;
      rewrite (find_version_archived e c 10 Hord) by lia; simpl;
      (eexists _, _; split; [reflexivity |]; simpl; repeat split; lia).
Qed.

(** *** Logged runs *)

(** A logged run changes the counters and, by promotion, the status of a
    draft, and nothing else: text, version, history, notes, curation marks
    and even [updated_at] are as before, and an evolving or curated entry
    keeps its status. *)
Theorem log_run_touches_only_counters
    (d : list string) (c : F) (r : string) (cs : list string) w e :
  stored d w = Some e →
  0 ≤ runs (performance e) →
  ∃ e' w',
    log_run d c r cs w = (Ok tt, w')
    ∧ stored d w' = Some e'
    ∧ set_status (status e) (set_performance (performance e) e') = e
    ∧ (status e ≠ draft → status e' = status e)
    ∧ (status e = draft → status e' = draft ∨ status e' = evolving).
Proof.
  destruct w as [[lib|] k]; [| done].
  unfold stored, entry_at; simpl. intros Hk Hruns.
  unfold log_run. run_api. rewrite Hk.
  destruct (decide _) as [Hz|_]; [lia |]. simpl.
  eexists _, _. split; [reflexivity |]. stored_now.
  split; [reflexivity |].
  destruct e as [? st ? ? ? ? ? ? ? ? ? [] ? ?]; simpl in *.
  destruct st; simpl; try by (repeat split; auto).
  destruct (_ && _); simpl; by (repeat split; auto).
Qed.

Lemma log_run_counters_step
    (d : list string) (c : F) (r : string) (cs : list string) w e :
  stored d w = Some e →
  0 ≤ runs (performance e) →
  ∃ e',
    stored d (exec (LogRun d c r cs) w) = Some e'
    ∧ runs (performance e') = runs (performance e) + 1
    ∧ conflicts_detected (performance e')
      = conflicts_detected (performance e)
        + (if decide (cs = []) then 0 else 1)
    ∧ regime_changes (performance e')
      = regime_changes (performance e)
        + (if regime_changed (last_regime (performance e)) r then 1 else 0)
    ∧ last_regime (performance e') = Some r.
Proof.
  destruct w as [[lib|] k]; [| done].
  unfold stored, entry_at; simpl. intros Hk Hruns.
  unfold log_run. run_api. rewrite Hk.
  destruct (decide _) as [Hz|_]; [lia |]. simpl.
  rewrite lookup_insert_eq. eexists. split; [reflexivity |].
  destruct (_ && _); simpl;
    (split; [done |]); (split; [by destruct cs; simpl; lia |]);
    (split; [| done]); destruct (regime_changed _ r); lia.
Qed.

Lemma conflict_runs_cons (c : F) (r : string) (cs : list string)
    (rs : list (@run_record F)) :
  conflict_runs ((c, r, cs) :: rs)
  = (if decide (cs = []) then 0 else 1) + conflict_runs rs.
Proof.
  unfold conflict_runs. rewrite filter_cons.
  destruct (decide ((c, r, cs).2 ≠ [])) as [Hne|He]; cbn [snd length] in *.
  - rewrite decide_False by done.
    rewrite Nat2Z.inj_succ, <- Z.add_1_l. reflexivity.
  - rewrite decide_True; [reflexivity |].
    destruct cs; [done | by destruct He].
Qed.

Lemma log_runs_counters_from (d : list string) (rs : list (@run_record F)) :
  ∀ w e,
    stored d w = Some e →
    0 ≤ runs (performance e) →
    (∀ r0, last_regime (performance e) = Some r0 → r0 ≠ "") →
    Forall (λ r, r.1.2 ≠ "") rs →
    ∃ e',
      stored d (exec_all (log_runs d rs) w) = Some e'
      ∧ runs (performance e')
        = runs (performance e) + Z.of_nat (length rs)
      ∧ conflicts_detected (performance e')
        = conflicts_detected (performance e) + conflict_runs rs
      ∧ regime_changes (performance e')
        = regime_changes (performance e)
          + adjacent_changes
              (option_list (last_regime (performance e)) ++ regimes rs)
      ∧ last_regime (performance e')
        = last (option_list (last_regime (performance e)) ++ regimes rs).
Proof.
  induction rs as [|[[c r] cs] rs IH]; intros w e Hst Hruns Hlast Hne.
  - exists e. simpl. split; [done |]. unfold conflict_runs; simpl.
    rewrite app_nil_r.
    destruct (last_regime (performance e)); simpl; repeat split; lia.
  - apply Forall_cons in Hne as [Hr Hne]. simpl in Hr.
    destruct (log_run_counters_step d c r cs w e Hst Hruns)
      as (e1 & Hst1 & Hruns1 & Hconf1 & Hreg1 & Hlast1).
    destruct (IH _ e1 Hst1 ltac:(lia) ltac:(intros r0; rewrite Hlast1; congruence) Hne)
      as (e' & Hst' & Hruns' & Hconf' & Hreg' & Hlast').
    exists e'. split; [exact Hst' |].
    rewrite Hruns', Hconf', Hreg', Hlast', Hruns1, Hconf1, Hreg1, Hlast1.
    simpl length. rewrite conflict_runs_cons. simpl regimes.
    split; [lia |]. split; [lia |].
    split.
    { destruct (last_regime (performance e)) as [r0|] eqn:Hlr; simpl.
      - specialize (Hlast r0 eq_refl). apply truthy_true in Hlast.
        rewrite Hlast. simpl. destruct (String.eqb r0 r); simpl; lia.
      - lia. }
    destruct (last_regime (performance e)) as [r0|]; simpl; [| done].
    by destruct (regimes rs).
Qed.

(** Starting from a fresh entry, after a list of runs whose regimes are
    non-empty strings the counters are: the number of runs, the number of
    runs that reported a conflict, and the number of neighbouring runs
    whose regimes differ; the last regime is the one of the last run. *)
Theorem log_runs_counters (d : list string) (rs : list (@run_record F)) w e :
  stored d w = Some e →
  performance e = fresh_performance →
  Forall (λ r, r.1.2 ≠ "") rs →
  ∃ e',
    stored d (exec_all (log_runs d rs) w) = Some e'
    ∧ runs (performance e') = Z.of_nat (length rs)
    ∧ conflicts_detected (performance e') = conflict_runs rs
    ∧ regime_changes (performance e') = adjacent_changes (regimes rs)
    ∧ last_regime (performance e') = last (regimes rs).
Proof.
  intros Hst Hfresh Hne.
  destruct (log_runs_counters_from d rs w e Hst) as (e' & Hst' & H');
    [by rewrite Hfresh | by rewrite Hfresh | done |].
  rewrite Hfresh in H'. simpl in H'.
  exists e'. split; [exact Hst' |].
  destruct H' as (-> & -> & -> & ->). repeat split; lia.
Qed.

(** *** Listing *)

#[local] Instance newer_first_total : Total (@newer_first F).
Proof. intros a b. unfold newer_first. lia. Qed.

Lemma load_library_prompts w :
  ∃ lib w',
    _load_library w = (Ok lib, w')
    ∧ disk w' = disk w
    ∧ prompts lib = prompts (on_disk w)
    ∧ ∀ k, entry_at k w = prompts lib !! k.
Proof.
  destruct w as [[lib|] c]; run_api; eexists _, _;
    (split; [reflexivity |]); (split; [done |]); unfold on_disk; simpl;
    (split; [done |]); intros k; unfold entry_at; simpl;
    by rewrite ?lookup_empty.
Qed.

Lemma elem_of_values lib e :
  e ∈ (map_to_list (prompts lib)).*2 ↔ ∃ k, prompts lib !! k = Some e.
Proof.
  rewrite list_elem_of_fmap. split.
  - intros ([k e0] & -> & Hin). exists k. by apply elem_of_map_to_list.
  - intros (k & Hk). exists (k, e). split; [done |].
    by apply elem_of_map_to_list.
Qed.

(** The listing writes nothing and is ordered newest first.  Without a
    status, or with the empty string, it holds exactly the stored entries;
    with a status it holds exactly the stored entries of that status, and
    so nothing when the string is not the name of a status. *)
Theorem list_prompts_newest_first (st : option string) w :
  ∃ l w',
    list_prompts st w = (Ok l, w')
    ∧ disk w' = disk w
    ∧ Sorted newer_first l
    ∧ (st = None ∨ st = Some "" →
       l ≡ₚ (map_to_list (prompts (on_disk w))).*2)
    ∧ (∀ s, st = Some s → s ≠ "" →
       l ≡ₚ filter (has_status s) (map_to_list (prompts (on_disk w))).*2)
    ∧ (∀ e, e ∈ l ↔
         (∃ k, entry_at k w = Some e)
         ∧ (∀ s, st = Some s → s ≠ "" → status_name (status e) = s))
    ∧ (∀ s, st = Some s → s ≠ "" → (∀ x, status_name x ≠ s) → l = []).
Proof.
  destruct (load_library_prompts w) as (lib & w' & Hload & Hdisk & Hlib & Hat).
  unfold list_prompts. unfold mbind at 1, M_bind at 1. rewrite Hload.
  unfold mret, M_ret. rewrite <- Hlib.
  eexists _, _. split; [reflexivity |]. split; [done |].
  split; [apply Sorted_merge_sort; apply _ |].
  assert (∀ e, (∃ k, entry_at k w = Some e)
               ↔ e ∈ (map_to_list (prompts lib)).*2) as Hin.
  { intros e. rewrite elem_of_values. by setoid_rewrite Hat. }
  destruct st as [s|]; [destruct (Py.truthy s) eqn:Hs |].
  - apply truthy_true in Hs.
    assert (∀ e, e ∈ merge_sort newer_first
                   (filter (has_status s) (map_to_list (prompts lib)).*2)
                 ↔ (∃ k, entry_at k w = Some e)
                   ∧ (∀ s0, Some s = Some s0 → s0 ≠ "" →
                      status_name (status e) = s0)) as Hmem.
    { intros e. rewrite merge_sort_Permutation, list_elem_of_filter, Hin.
      unfold has_status. split.
      - intros [He Hl]. split; [done |]. by intros ? [= <-] _.
      - intros [Hl He]. split; [by apply He | done]. }
    split; [by intros [|[= ->]] |].
    split; [intros ? [= <-] _; apply merge_sort_Permutation |].
    split; [exact Hmem |].
    intros ? [= <-] _ Hnone. apply elem_of_nil_inv. intros e He.
    apply Hmem in He as [_ He]. by apply (Hnone (status e)), He.
  - apply truthy_false in Hs. subst s.
    split; [intros _; apply merge_sort_Permutation |].
    split; [by intros ? [= <-] |].
    split; [| by intros ? [= <-]].
    intros e. rewrite merge_sort_Permutation, Hin.
    split; [intros He; split; [done | by intros ? [= <-]] | by intros []].
  - split; [intros _; apply merge_sort_Permutation |].
    split; [done |]. split; [| done].
    intros e. rewrite merge_sort_Permutation, Hin.
    split; [by intros He | by intros []].
Qed.

(** *** Versions and texts *)

Lemma last_last_n_snoc {A} (n : nat) (l : list A) (x : A) :
  (0 < n)%nat → last (Py.last_n n (l ++ [x])) = Some x.
Proof.
  intros Hn. unfold Py.last_n. rewrite length_app. simpl.
  rewrite drop_app_le by lia. apply last_snoc.
Qed.

(** While an entry exists, no call on any domain list lowers its version
    or changes its creation time, and its text and history change only
    together with the version: a call either leaves version, text and
    history as they are (only a logged run can then promote a draft), or
    moves the version up by one and archives the replaced state as the
    newest snapshot. *)
Theorem text_changes_bump_version o w (d : list string) e :
  stored d w = Some e →
  (∀ d', o = Delete d' → _domain_key d' ≠ _domain_key d) →
  ∃ e',
    stored d (exec o w) = Some e'
    ∧ created_at e' = created_at e
    ∧ ((version e' = version e
        ∧ system_prompt e' = system_prompt e
        ∧ history e' = history e
        ∧ (status e' = status e ∨ status e = draft ∧ status e' = evolving))
       ∨ (version e' = version e + 1
          ∧ ∃ t, last (history e') = Some (archive e t))).
Proof.
  intros Hst Hdel.
  destruct (decide (_domain_key d = _domain_key (op_domains o))) as [Heq|Hne].
  2: { exists e. unfold stored. rewrite exec_frame by done.
       split; [done |]. split; [done |]. left. by auto. }
  destruct w as [[lib|] c]; [| done].
  unfold stored, entry_at in *; simpl in Hst.
  destruct o as [d' sp ui gb|d' ed cu no|d' cf r cs|d' v|d'];
    simpl in Heq; simpl.
  - unfold save_draft. run_api. rewrite <- Heq, Hst.
    destruct (decide (status e = curated)); simpl.
    + exists e. rewrite Hst. split; [done |]. split; [done |]. left. by auto.
    + eexists. rewrite lookup_insert_eq. split; [done |]. simpl.
      split; [done |]. right. split; [done |].
      eexists. apply last_last_n_snoc; lia.
  - unfold curate_prompt. run_api. rewrite <- Heq, Hst. simpl.
    eexists. rewrite lookup_insert_eq. split; [done |].
    destruct ed as [ed|]; [destruct (Py.truthy ed) |]; simpl;
      (split; [done |]); right; (split; [done |]);
      eexists; apply last_last_n_snoc; lia.
  - unfold log_run. run_api. rewrite <- Heq, Hst.
    destruct (decide _); simpl.
    + exists e. rewrite Hst. split; [done |]. split; [done |]. left. by auto.
    + eexists. rewrite lookup_insert_eq. split; [done |].
      destruct e as [? st ? ? ? ? ? ? ? ? ? [] ? ?]; simpl in *.
      destruct st; simpl; try (split; [done |]; left; by auto).
      destruct (_ && _); simpl; (split; [done |]); left; repeat split; auto.
  - unfold rollback. run_api. rewrite <- Heq, Hst. simpl.
    destruct (find_version v (history e)) as [tg|]; simpl.
    + eexists. rewrite lookup_insert_eq. split; [done |]. simpl.
      split; [done |]. right. split; [done |].
      eexists. apply last_snoc.
    + exists e. rewrite Hst. split; [done |]. split; [done |]. left. by auto.
  - by destruct (Hdel d' eq_refl).
Qed.

Lemma set_performance_twice p p' e :
  set_performance p (set_performance p' e) = set_performance p e.
Proof. by destruct e. Qed.

Lemma automatic_step o w (d : list string) e :
  automatic o →
  stored d w = Some e →
  status e = curated →
  ∃ e', stored d (exec o w) = Some e'
        ∧ set_performance (performance e) e' = e.
Proof.
  intros Hauto Hst Hcur.
  assert (set_performance (performance e) e = e) as Hsame by by destruct e.
  destruct (decide (_domain_key d = _domain_key (op_domains o))) as [Heq|Hne].
  2: { exists e. unfold stored. by rewrite exec_frame. }
  destruct w as [[lib|] c]; [| done].
  unfold stored, entry_at in *; simpl in Hst.
  destruct o as [d' sp ui gb|d' ed cu no|d' cf r cs|d' v|d'];
    try done; simpl in Heq; simpl.
  - unfold save_draft. run_api. rewrite <- Heq, Hst.
    destruct (decide (status e = curated)); [| done]. simpl.
    exists e. by rewrite Hst.
  - unfold log_run. run_api. rewrite <- Heq, Hst.
    destruct (decide _); simpl.
    + exists e. by rewrite Hst.
    + eexists. rewrite lookup_insert_eq. split; [done |].
      destruct e as [? st ? ? ? ? ? ? ? ? ? [] ? ?]; simpl in *. by subst st.
Qed.

(** A curated entry is out of reach of the automatic calls: after any
    sequence of draft saves and logged runs, on any domain lists, it is
    still stored, still curated, and nothing but its run counters has
    changed. *)
Theorem curated_survives_automatic_ops (os : list op) w (d : list string) e :
  stored d w = Some e →
  status e = curated →
  Forall automatic os →
  ∃ e', stored d (exec_all os w) = Some e'
        ∧ status e' = curated
        ∧ set_performance (performance e) e' = e.
Proof.
  intros Hst Hcur Hos. revert w e Hst Hcur.
  induction Hos as [|o os Ho _ IH]; intros w e Hst Hcur; simpl.
  - exists e. split; [done |]. split; [done |]. by destruct e.
  - destruct (automatic_step o w d e Ho Hst Hcur) as (e1 & Hst1 & He1).
    assert (status e1 = curated) as Hcur1 by (by rewrite <- He1 in Hcur; destruct e1).
    destruct (IH _ _ Hst1 Hcur1) as (e2 & Hst2 & Hcur2 & He2).
    exists e2. split; [done |]. split; [done |].
    rewrite <- He2 in He1. by rewrite set_performance_twice in He1.
Qed.

End Further.

(** *** The shape of a key *)

Lemma hex_digit_is_hex (n : Z) :
  MD5.hex_digit n ∈ list_ascii_of_string "0123456789abcdef".
Proof.
  unfold MD5.hex_digit. apply list_elem_of_In.
  destruct (nth_in_or_default (Z.to_nat n)
              (list_ascii_of_string "0123456789abcdef") "0"%char)
    as [Hin| ->]; [done |].
  simpl. by left.
Qed.

(** A key is always twelve characters long, each a lower-case hexadecimal
    digit, whatever the domain list, the empty one included. *)
Theorem domain_key_shape (d : list string) :
  String.length (_domain_key d) = 12%nat
  ∧ Forall (λ c, c ∈ list_ascii_of_string "0123456789abcdef")
           (list_ascii_of_string (_domain_key d)).
Proof.
  unfold _domain_key, MD5.hexdigest, MD5.digest.
  generalize (foldl MD5.process_block MD5.init_state
                (MD5.blocks (MD5.pad (MD5.encode
                   (Py.join "|" (Py.sorted (normalize <$> d))))))).
  intros st.
  cbn [MD5.le_bytes app MD5.hex Py.prefix substring String.length
       list_ascii_of_string].
  split; [reflexivity |].
  repeat (apply Forall_cons; split; [apply hex_digit_is_hex |]).
  apply Forall_nil_2.
Qed.

(** *** The further properties on the scenario, in binary64 *)

Lemma save_draft_fresh_key_witness :
  stored tags (@boot float) = None
  ∧ ∃ e w', save_draft tags "v1" "intent" "auto" (@boot float) = (Ok e, w')
            ∧ stored tags w' = Some e
            ∧ version e = 1.
Proof.
  split; [vm_compute; reflexivity |].
  destruct (save_draft_fresh_key tags "v1" "intent" "auto" (@boot float))
    as (e & w' & Hrun & Hst & _ & _ & Hv & _); [vm_compute; reflexivity |].
  exists e, w'. repeat split; assumption.
Defined.

Lemma save_draft_overwrites_witness :
  let w : @world float := after [first_draft] in
  ∃ ex, stored tags w = Some ex
        ∧ status ex ≠ curated
        ∧ ∃ e w', save_draft tags "v2" "intent" "auto" w = (Ok e, w')
                  ∧ stored tags w' = Some e
                  ∧ version e = version ex + 1.
Proof.
  intros w. eexists. split; [vm_compute; reflexivity |].
  split; [discriminate |].
  destruct (save_draft_overwrites tags "v2" "intent" "auto" w _
              ltac:(vm_compute; reflexivity) ltac:(discriminate))
    as (e & w' & Hrun & Hst & Hv & _).
  exists e, w'. repeat split; assumption.
Defined.

Lemma missing_entry_behaviour_witness :
  let w : @world float := after [first_draft] in
  stored ["gold"] w = None
  ∧ ∃ w', rollback ["gold"] 1 w = (Raise (NotFound ["gold"]), w')
          ∧ disk w' = disk w.
Proof.
  intros w. split; [vm_compute; reflexivity |].
  destruct (missing_entry_behaviour ["gold"] w ltac:(vm_compute; reflexivity))
    as (_ & Hroll & _).
  apply Hroll.
Defined.

Lemma curate_prompt_effect_witness :
  let w : @world float := after [first_draft] in
  ∃ e, stored tags w = Some e
       ∧ (∃ e' w', curate_prompt tags (Some "final") "ana" "" w = (Ok e', w')
                   ∧ stored tags w' = Some e'
                   ∧ status e' = curated
                   ∧ version e' = version e + 1
                   ∧ system_prompt e' = "final")
       ∧ (∃ e' w', curate_prompt tags (Some "") "ana" "" w = (Ok e', w')
                   ∧ system_prompt e' = system_prompt e).
Proof.
  intros w. eexists. split; [vm_compute; reflexivity |]. split.
  - destruct (curate_prompt_effect tags (Some "final") "ana" "" w _
                ltac:(vm_compute; reflexivity))
      as (e' & w' & Hrun & Hst & Hs & Hv & Hnew & _).
    exists e', w'. repeat split; try assumption.
    apply (Hnew "final"); [reflexivity | discriminate].
  - destruct (curate_prompt_effect tags (Some "") "ana" "" w _
                ltac:(vm_compute; reflexivity))
      as (e' & w' & Hrun & _ & _ & _ & _ & Hkeep & _).
    exists e', w'. split; [assumption |]. apply Hkeep. by right.
Defined.

Lemma written_entry_is_read_back_witness :
  ∃ e w', save_draft tags "v1" "intent" "auto" (@boot float) = (Ok e, w')
          ∧ get_prompt tags w' = (Ok (Some e), w').
Proof.
  eexists _, _.
  assert (save_draft tags "v1" "intent" "auto" (@boot float) = (Ok _, _))
    as Hrun by (vm_compute; reflexivity).
  split; [exact Hrun |].
  exact (proj1 (written_entry_is_read_back tags _ _ _) _ _ _ Hrun).
Defined.

Lemma exec_other_keys_witness :
  let w : @world float := after [first_draft] in
  _domain_key tags ≠ _domain_key (op_domains (@Delete float ["gold"]))
  ∧ entry_at (_domain_key tags) (exec (Delete ["gold"]) w)
    = entry_at (_domain_key tags) w.
Proof.
  intros w.
  assert (_domain_key tags ≠ _domain_key (op_domains (@Delete float ["gold"])))
    as Hne by (intros Heq; vm_compute in Heq; discriminate).
  split; [exact Hne |]. by apply exec_other_keys.
Defined.

Lemma exec_keeps_file_witness :
  let w : @world float := after [first_draft] in
  ∃ lib, disk w = Some lib
         ∧ ∃ lib', disk (exec (Delete tags) w) = Some lib'
                   ∧ metadata_created lib' = metadata_created lib.
Proof.
  intros w. eexists. split; [vm_compute; reflexivity |].
  apply exec_keeps_file. vm_compute. reflexivity.
Defined.

Lemma delete_then_save_restarts_witness :
  let w : @world float := after [first_draft; approve] in
  ∃ e, stored tags w = Some e
       ∧ ∃ w1 e' w2,
           delete_prompt tags w = (Ok true, w1)
           ∧ stored tags w1 = None
           ∧ save_draft tags "again" "intent" "auto" w1 = (Ok e', w2)
           ∧ stored tags w2 = Some e'
           ∧ version e' = 1.
Proof.
  intros w. eexists. split; [vm_compute; reflexivity |].
  destruct (delete_then_save_restarts tags "again" "intent" "auto" w _
              ltac:(vm_compute; reflexivity))
    as (w1 & e' & w2 & Hdel & Hgone & Hrun & Hst & Hv & _).
  exists w1, e', w2. repeat split; assumption.
Defined.

Lemma stored_entry_carries_its_key_witness :
  let w : @world float := after [first_draft; approve] in
  ∃ e, reachable w
       ∧ entry_at (_domain_key tags) w = Some e
       ∧ key e = _domain_key tags
       ∧ _domain_key (domains e) = _domain_key tags.
Proof.
  intros w. eexists. split; [apply reachable_after |].
  split; [vm_compute; reflexivity |].
  apply (stored_entry_carries_its_key w);
    [apply reachable_after | vm_compute; reflexivity].
Defined.

Lemma counters_within_runs_witness :
  let w : @world float :=
    after [first_draft; LogRun tags 0.5%float "calm" [];
           LogRun tags 0.75%float "storm" ["rates"]] in
  ∃ e, reachable w
       ∧ entry_at (_domain_key tags) w = Some e
       ∧ 0 ≤ conflicts_detected (performance e) ≤ runs (performance e)
       ∧ 0 ≤ regime_changes (performance e)
           ≤ Z.max 0 (runs (performance e) - 1)
       ∧ (status e = evolving → 20 ≤ runs (performance e)).
Proof.
  intros w. eexists. split; [apply reachable_after |].
  split; [vm_compute; reflexivity |].
  apply (counters_within_runs w (_domain_key tags));
    [apply reachable_after | vm_compute; reflexivity].
Defined.

Lemma log_run_never_raises_witness :
  let w : @world float := after [first_draft] in
  reachable w
  ∧ ∃ w', log_run tags 0.5%float "calm" [] w = (Ok tt, w').
Proof.
  intros w. split; [apply reachable_after |].
  apply log_run_never_raises, reachable_after.
Defined.

Lemma history_holds_latest_versions_witness :
  let w : @world float := after (replicate 12 first_draft) in
  ∃ e, reachable w
       ∧ entry_at (_domain_key tags) w = Some e
       ∧ h_version <$> history e
           = seqZ (version e - Z.of_nat (length (history e)))
                  (Z.of_nat (length (history e)))
       ∧ Z.min (version e - 1) 10 ≤ Z.of_nat (length (history e))
           ≤ version e - 1.
Proof.
  intros w. eexists. split; [apply reachable_after |].
  split; [vm_compute; reflexivity |].
  apply (history_holds_latest_versions w (_domain_key tags));
    [apply reachable_after | vm_compute; reflexivity].
Defined.

Lemma rollback_reachable_versions_witness :
  let w : @world float := after (replicate 12 first_draft) in
  ∃ e, reachable w
       ∧ stored tags w = Some e
       ∧ version e = 12
       ∧ (∃ e' w', rollback tags 2 w = (Ok e', w')
                   ∧ version e' = version e + 1)
       ∧ rollback tags 1 w = (Raise (VersionNotFound 1), w).
Proof.
  intros w. eexists. split; [apply reachable_after |].
  split; [vm_compute; reflexivity |]. split; [reflexivity |].
  split.
  - refine (proj1 (proj2 (rollback_reachable_versions tags 2 w _
                            (reachable_after _)
                            ltac:(vm_compute; reflexivity))) _ _);
      simpl; lia.
  - refine (proj2 (proj2 (rollback_reachable_versions tags 1 w _
                            (reachable_after _)
                            ltac:(vm_compute; reflexivity))) _).
    simpl. lia.
Defined.

Lemma rollback_undoes_last_write_witness :
  let w : @world float := after [first_draft] in
  ∃ e, reachable w
       ∧ stored tags w = Some e
       ∧ ∃ e2 w2,
           rollback tags (version e) (exec (Curate tags (Some "final") "ana" "") w)
             = (Ok e2, w2)
           ∧ system_prompt e2 = system_prompt e
           ∧ status e2 = status e
           ∧ version e2 = version e + 2
           ∧ curated_by e2 = Some "ana".
Proof.
  intros w. eexists. split; [apply reachable_after |].
  split; [vm_compute; reflexivity |].
  apply (rollback_undoes_last_write tags w _ (reachable_after _)
           ltac:(vm_compute; reflexivity)).
Defined.

Lemma log_run_touches_only_counters_witness :
  let w : @world float := after [first_draft; approve] in
  ∃ e, stored tags w = Some e
       ∧ 0 ≤ runs (performance e)
       ∧ ∃ e' w',
           log_run tags 0.75%float "calm" [] w = (Ok tt, w')
           ∧ stored tags w' = Some e'
           ∧ set_status (status e) (set_performance (performance e) e') = e
           ∧ (status e ≠ draft → status e' = status e)
           ∧ (status e = draft → status e' = draft ∨ status e' = evolving).
Proof.
  intros w. eexists. split; [vm_compute; reflexivity |].
  split; [simpl; lia |].
  apply log_run_touches_only_counters; [vm_compute; reflexivity | simpl; lia].
Defined.

Lemma log_runs_counters_witness :
  let w : @world float := after [first_draft] in
  let rs : list (@run_record float) :=
    [(0.5%float, "calm", []); (0.75%float, "storm", ["rates"]);
     (1%float, "storm", ["rates"; "fx"]); (0.5%float, "calm", [])] in
  ∃ e, stored tags w = Some e
       ∧ performance e = fresh_performance
       ∧ Forall (λ r, r.1.2 ≠ "") rs
       ∧ ∃ e', stored tags (exec_all (log_runs tags rs) w) = Some e'
               ∧ runs (performance e') = Z.of_nat (length rs)
               ∧ conflicts_detected (performance e') = conflict_runs rs
               ∧ regime_changes (performance e') = adjacent_changes (regimes rs)
               ∧ last_regime (performance e') = last (regimes rs).
Proof.
  intros w rs.
  assert (Forall (λ r : @run_record float, r.1.2 ≠ "") rs) as Hne
    by (repeat constructor; discriminate).
  eexists. split; [vm_compute; reflexivity |].
  split; [reflexivity |]. split; [exact Hne |].
  eapply (log_runs_counters tags rs w);
    [vm_compute; reflexivity | reflexivity | exact Hne].
Defined.

Example log_runs_counters_values :
  let rs : list (@run_record float) :=
    [(0.5%float, "calm", []); (0.75%float, "storm", ["rates"]);
     (1%float, "storm", ["rates"; "fx"]); (0.5%float, "calm", [])] in
  conflict_runs rs = 2 ∧ adjacent_changes (regimes rs) = 2.
Proof. vm_compute. done. Qed.

Lemma text_changes_bump_version_witness :
  let w : @world float := after [first_draft] in
  ∃ e, stored tags w = Some e
       ∧ (∀ d', @second_draft float = Delete d'
                → _domain_key d' ≠ _domain_key tags)
       ∧ ∃ e',
           stored tags (exec second_draft w) = Some e'
           ∧ created_at e' = created_at e
           ∧ ((version e' = version e
               ∧ system_prompt e' = system_prompt e
               ∧ history e' = history e
               ∧ (status e' = status e
                  ∨ status e = draft ∧ status e' = evolving))
              ∨ (version e' = version e + 1
                 ∧ ∃ t, last (history e') = Some (archive e t))).
Proof.
  intros w. eexists. split; [vm_compute; reflexivity |].
  split; [intros d' Hd; discriminate Hd |].
  apply text_changes_bump_version;
    [vm_compute; reflexivity | intros d' Hd; discriminate Hd].
Defined.

Lemma curated_survives_automatic_ops_witness :
  let w : @world float := after [first_draft; approve] in
  let os : list (@op float) :=
    [second_draft; LogRun tags 0.5%float "calm" [];
     SaveDraft ["gold"] "g1" "intent" "auto"] in
  ∃ e, stored tags w = Some e
       ∧ status e = curated
       ∧ Forall automatic os
       ∧ ∃ e', stored tags (exec_all os w) = Some e'
               ∧ status e' = curated
               ∧ set_performance (performance e) e' = e.
Proof.
  intros w os.
  assert (Forall automatic os) as Hos by (repeat constructor).
  eexists. split; [vm_compute; reflexivity |].
  split; [reflexivity |]. split; [exact Hos |].
  apply curated_survives_automatic_ops;
    [vm_compute; reflexivity | reflexivity | exact Hos].
Defined.
